(** * Menu-extraction pipeline (lesson12-async.py): a shallow embedding

    The development follows the Python module top to bottom:
    the pydantic records, [get_media_type], the CSV store
    ([initialize_csv], [append_to_csv]), the de-duplication loop of
    [process_image], the per-image coroutine, and [main] with its
    [asyncio.gather] sweep.

    Conventions.
    - A Python [str] is a Rocq [string]. [str.lower] and [str.strip] are
      modelled on the ASCII range; bytes above 127 are left alone.
    - A Python [float] is a primitive binary64 [float].
    - A [pathlib.Path] is the list of its components.
    - An insertion-ordered [dict] whose order is observed is an association
      list; a [dict] or [set] used for lookup only is a [gmap] or [gset].
    - The two agents, the clock and the file system are an explicit
      environment and an explicit world state. *)

From Stdlib Require Import Ascii Floats.
From stdpp Require Import base option list strings gmap.

(** ** Python strings *)

Module Str.

(** [str.lower] on one character: [A-Z] is shifted to [a-z]. *)
Definition lower_char (c : ascii) : ascii :=
  let n := Ascii.nat_of_ascii c in
  if (65 <=? n)%nat && (n <=? 90)%nat then Ascii.ascii_of_nat (n + 32) else c.

Fixpoint lower (s : string) : string :=
  match s with
  | EmptyString => EmptyString
  | String c r => String (lower_char c) (lower r)
  end.

(** The ASCII characters for which [str.isspace] holds:
    TAB, LF, VT, FF, CR, FS, GS, RS, US and the blank. *)
Definition is_space (c : ascii) : bool :=
  let n := Ascii.nat_of_ascii c in
  ((9 <=? n)%nat && (n <=? 13)%nat) || ((28 <=? n)%nat && (n <=? 32)%nat).

Fixpoint lstrip (s : string) : string :=
  match s with
  | EmptyString => EmptyString
  | String c r => if is_space c then lstrip r else s
  end.

Fixpoint rstrip (s : string) : string :=
  match s with
  | EmptyString => EmptyString
  | String c r =>
      match rstrip r with
      | EmptyString => if is_space c then EmptyString else String c EmptyString
      | r' => String c r'
      end
  end.

(** [s.strip()] with no argument. *)
Definition strip (s : string) : string := rstrip (lstrip s).

(** [s.rfind(c)]: the highest index holding [c]; [None] stands for -1. *)
Fixpoint rfind (c : ascii) (s : string) : option nat :=
  match s with
  | EmptyString => None
  | String a r =>
      match rfind c r with
      | Some i => Some (S i)
      | None => if Ascii.eqb a c then Some 0%nat else None
      end
  end.

(** [s[i:]] *)
Fixpoint drop (i : nat) (s : string) : string :=
  match i, s with
  | O, _ => s
  | S _, EmptyString => EmptyString
  | S j, String _ r => drop j r
  end.

(** [sep.join(l)] *)
Fixpoint join (sep : string) (l : list string) : string :=
  match l with
  | [] => ""
  | [x] => x
  | x :: r => x +:+ sep +:+ join sep r
  end.

End Str.

(** ** pathlib *)

Record Path := mkPath { parts : list string }.

(** [p / child] *)
Definition path_join (p : Path) (child : string) : Path :=
  mkPath (parts p ++ [child]).

(** [p.name]: the final component. *)
Definition name (p : Path) : string := List.last (parts p) "".

(** [str(p)] for a relative POSIX path. *)
Definition path_str (p : Path) : string := Str.join "/" (parts p).

(** [p.suffix]: [name[i:]] for [i = name.rfind('.')] when
    [0 < i < len(name) - 1], and the empty string otherwise. *)
Definition suffix (p : Path) : string :=
  let nm := name p in
  match Str.rfind "." nm with
  | Some i =>
      if (0 <? i)%nat && (i <? String.length nm - 1)%nat
      then Str.drop i nm
      else ""
  | None => ""
  end.

(** ** Configuration *)

Definition WATCH_FOLDER : Path := mkPath ["images_watchfolder"].
Definition CSV_OUTPUT : Path := mkPath ["menus-async.csv"].
Definition IMAGE_EXTENSIONS : gset string :=
  {[ ".png"; ".jpg"; ".jpeg"; ".gif"; ".webp" ]}.

(** ** The pydantic models *)

Record MenuItem := mkMenuItem {
  dish_name : string;
  price : float;
  currency : string;
  category : string;
  dietary_tags : list string;
  portion_size : option string;
  is_daily_special : bool
}.

Record MenuExtraction := mkMenuExtraction {
  me_restaurant_name : string;
  me_items : list MenuItem
}.

Record RestaurantEnrichment := mkRestaurantEnrichment {
  re_google_rating : option float;
  re_address : string;
  re_cuisine_type : string
}.

Record EnrichedMenuExtraction := mkEnriched {
  restaurant_name : string;
  cuisine_type : string;
  google_rating : option float;
  address : string;
  items : list MenuItem
}.

(** ** get_media_type *)

Definition media_types : gmap string string :=
  list_to_map
    [ (".png", "image/png");
      (".jpg", "image/jpeg");
      (".jpeg", "image/jpeg");
      (".gif", "image/gif");
      (".webp", "image/webp") ].

Definition get_media_type (filepath : Path) : string :=
  let sfx := Str.lower (suffix filepath) in
  default "image/jpeg" (media_types !! sfx).

(** ** The CSV store

    [csv.writer] receives a list of values per row; a value is a [str] or
    a [float] (rendered by the writer with [str()]). A row is kept as the
    list of values handed to [writerow]. The file [CSV_OUTPUT] is [None]
    while it does not exist and [Some rows] afterwards. *)

Inductive cell :=
| CStr (s : string)
| CFloat (x : float).

Definition row := list cell.
Definition csv_file := option (list row).

Definition HEADER : list string :=
  [ "timestamp"; "source_image"; "restaurant_name"; "dish_name"; "price";
    "category"; "dietary_tags"; "cuisine_type"; "google_rating"; "address" ].

Definition header_row : row := CStr <$> HEADER.

(** [CSV_OUTPUT.exists()] *)
Definition exists_file (f : csv_file) : bool :=
  match f with Some _ => true | None => false end.

(** The rows of the file; a missing file opened in mode ['a'] starts empty. *)
Definition csv_rows (f : csv_file) : list row := default [] f.

(** [writer.writerow(r)] on the open file. *)
Definition writerow (rows : list row) (r : row) : list row := rows ++ [r].

Definition initialize_csv (f : csv_file) : csv_file :=
  if negb (exists_file f)
  then Some (writerow [] header_row)      (* open(CSV_OUTPUT, 'w') *)
  else f.

(** Truth value of a Python float: every value but [0.0] and [-0.0]. *)
Definition float_truthy (x : float) : bool := negb (PrimFloat.eqb x 0%float).

(** [extraction.google_rating or ''] *)
Definition rating_or_empty (r : option float) : cell :=
  match r with
  | None => CStr ""
  | Some x => if float_truthy x then CFloat x else CStr ""
  end.

(** [';'.join(item.dietary_tags) if item.dietary_tags else ''] *)
Definition tags_or_empty (tags : list string) : cell :=
  match tags with
  | [] => CStr ""
  | _ => CStr (Str.join ";" tags)
  end.

(** The list handed to [writerow] for one item. *)
Definition item_row (timestamp source_image : string)
    (extraction : EnrichedMenuExtraction) (item : MenuItem) : row :=
  [ CStr timestamp;
    CStr source_image;
    CStr (restaurant_name extraction);
    CStr (dish_name item);
    CFloat (price item);
    CStr (category item);
    tags_or_empty (dietary_tags item);
    CStr (cuisine_type extraction);
    rating_or_empty (google_rating extraction);
    CStr (address extraction) ].

(** [append_to_csv], with [timestamp] the value of
    [datetime.now().isoformat()] read on entry. The [for] loop is the fold. *)
Definition append_to_csv (timestamp source_image : string)
    (extraction : EnrichedMenuExtraction) (f : csv_file) : csv_file :=
  Some (fold_left
          (fun rows item =>
             writerow rows (item_row timestamp source_image extraction item))
          (items extraction)
          (csv_rows f)).                  (* open(CSV_OUTPUT, 'a') *)

(** The value of a row under a column of the header. *)
Fixpoint index_of (c : string) (cols : list string) : option nat :=
  match cols with
  | [] => None
  | c' :: r => if decide (c' = c) then Some 0%nat else S <$> index_of c r
  end.

Definition column (c : string) (r : row) : option cell :=
  i ← index_of c HEADER; r !! i.

(** Number of header rows in a file. A row is a header row when all its
    values are strings and they spell [HEADER]. *)
Definition cell_str (c : cell) : option string :=
  match c with CStr s => Some s | CFloat _ => None end.

Definition is_header (r : row) : bool :=
  match mapM cell_str r with
  | Some l => bool_decide (l = HEADER)
  | None => false
  end.

Definition header_count (f : csv_file) : nat :=
  length (filter (fun r => is_header r = true) (csv_rows f)).

(** ** De-duplication (the loop inside [process_image])

    [unique_items] is a [dict] read back in insertion order. *)

Definition odict := list (string * MenuItem).

(** [k in d] *)
Definition odict_contains (k : string) (d : odict) : bool :=
  bool_decide (k ∈ d.*1).

(** [d[k] = v]: a present key keeps its position, a new key goes last. *)
Fixpoint odict_set (k : string) (v : MenuItem) (d : odict) : odict :=
  match d with
  | [] => [(k, v)]
  | (k', v') :: r =>
      if decide (k' = k) then (k', v) :: r else (k', v') :: odict_set k v r
  end.

(** [list(d.values())] *)
Definition odict_values (d : odict) : list MenuItem := d.*2.

(** [item.dish_name.strip().lower()] *)
Definition item_key (item : MenuItem) : string :=
  Str.lower (Str.strip (dish_name item)).

(** One iteration of the loop. *)
Definition dedup_step (unique_items : odict) (item : MenuItem) : odict :=
  let k := item_key item in
  if negb (odict_contains k unique_items)
  then odict_set k item unique_items
  else unique_items.

Definition dedup (its : list MenuItem) : list MenuItem :=
  let unique_items := fold_left dedup_step its [] in
  odict_values unique_items.

(** What the specification says of the de-duplicator, read literally: walk
    the input in order and keep an item exactly when its key was not met
    before. [seen] holds the keys met so far. *)
Section FirstPerKey.
Context {A K : Type} `{EqDecision K} (key : A -> K).

Fixpoint first_per_key_from (seen : list K) (l : list A) : list A :=
  match l with
  | [] => []
  | x :: r =>
      if decide (key x ∈ seen)
      then first_per_key_from seen r
      else x :: first_per_key_from (seen ++ [key x]) r
  end.

Definition first_per_key (l : list A) : list A := first_per_key_from [] l.
End FirstPerKey.

(** ** Exceptions, the environment and the world

    Every error the model raises is an instance of a subclass of
    [Exception]; interpreter-level [BaseException]s (interrupts,
    cancellation) are outside the model. An awaited call either returns or
    raises; a call that never answers is outside the model. *)

Record exn := mkExn { exn_type : string; exn_msg : string }.

Inductive outcome (A : Type) :=
| Returns (a : A)
| Raises (e : exn).
Arguments Returns {A} a.
Arguments Raises {A} e.

(** What the outside answers to the pipeline of one image. The agents are
    not functions of their request (the same request may be answered
    differently), so each answer is indexed by the image whose pipeline
    asks. *)
Record Env := mkEnv {
  read_bytes : Path -> outcome (list Byte.byte);
  extraction_agent_run : Path -> list Byte.byte -> string -> outcome MenuExtraction;
  enrichment_agent_run : Path -> string -> outcome RestaurantEnrichment;
  now_isoformat : Path -> string
}.

(** Effects other than the store, in the order they happen. Console output
    is not modelled, except the line printed by the [except] clause. *)
Inductive event :=
| ReadBytes (p : Path)
| ExtractionRequest (data : list Byte.byte) (media_type : string)
| EnrichmentRequest (prompt : string)
| ErrorReport (line : string).

Record World := mkWorld {
  folder : option (list string);  (* WATCH_FOLDER: [None] when missing, else the names [iterdir()] lists *)
  store : csv_file;               (* CSV_OUTPUT *)
  trace : list event
}.

Definition log (ev : event) (w : World) : World :=
  mkWorld (folder w) (store w) (trace w ++ [ev]).

Definition with_store (g : csv_file -> csv_file) (w : World) : World :=
  mkWorld (folder w) (g (store w)) (trace w).

(** ** process_image

    The coroutine suspends at three [await]s. A [task] is the coroutine
    between two of them, holding the local variables that are live there. *)

Inductive task :=
| Created (image_path : Path)
| Sleeping (image_path : Path)                        (* at [await asyncio.sleep(0.5)] *)
| Extracting (image_path : Path)
    (image_data : list Byte.byte) (media_type : string)   (* at [await extraction_agent.run] *)
| Enriching (image_path : Path)
    (restaurant : string) (deduplicated_items : list MenuItem)  (* at [await enrichment_agent.run] *)
| Done.                                               (* returned [None] *)

Definition is_image (p : Path) : bool :=
  bool_decide (Str.lower (suffix p) ∈ IMAGE_EXTENSIONS).

Definition enrichment_prompt (restaurant : string) : string :=
  "Find the Google rating, address, and cuisine type for the restaurant: "
  +:+ restaurant +:+ " in Tampere, Finland".

(** [enrich_restaurant]: the answer its [await enrichment_agent.run(...)]
    delivers to the pipeline of [image_path]. *)
Definition enrich_restaurant (env : Env) (image_path : Path) (restaurant : string)
  : outcome RestaurantEnrichment :=
  enrichment_agent_run env image_path (enrichment_prompt restaurant).

(** The statements of the [try] block from one suspension to the next. *)
Definition try_block (env : Env) (t : task) (w : World) : outcome (task * World) :=
  match t with
  | Created _ | Done => Returns (t, w)
  | Sleeping p =>
      match read_bytes env p with
      | Raises e => Raises e
      | Returns image_data =>
          let media_type := get_media_type p in
          Returns (Extracting p image_data media_type,
                   log (ExtractionRequest image_data media_type) (log (ReadBytes p) w))
      end
  | Extracting p image_data media_type =>
      match extraction_agent_run env p image_data media_type with
      | Raises e => Raises e
      | Returns extraction_result =>
          let restaurant := me_restaurant_name extraction_result in
          let deduplicated_items := dedup (me_items extraction_result) in
          Returns (Enriching p restaurant deduplicated_items,
                   log (EnrichmentRequest (enrichment_prompt restaurant)) w)
      end
  | Enriching p restaurant deduplicated_items =>
      match enrich_restaurant env p restaurant with
      | Raises e => Raises e
      | Returns enrichment =>
          let enriched_extraction :=
            mkEnriched restaurant (re_cuisine_type enrichment)
              (re_google_rating enrichment) (re_address enrichment)
              deduplicated_items in
          Returns (Done,
                   with_store
                     (append_to_csv (now_isoformat env p) (name p) enriched_extraction) w)
      end
  end.

(** [print(f"   Error processing {image_path.name}: {e}")] *)
Definition error_line (p : Path) (e : exn) : string :=
  "   Error processing " +:+ name p +:+ ": " +:+ exn_msg e.

(** Run the coroutine from one suspension to the next (or to its end). *)
Definition resume (env : Env) (t : task) (w : World) : task * World :=
  match t with
  | Created p =>
      if negb (is_image p) then (Done, w) else (Sleeping p, w)
  | Done => (Done, w)
  | Sleeping p | Extracting p _ _ | Enriching p _ _ =>
      match try_block env t w with
      | Returns next => next
      | Raises e =>                       (* except Exception as e *)
          (Done, log (ErrorReport (error_line p e)) w)
      end
  end.

(** The coroutine run alone until it returns: four resumptions reach [Done]. *)
Fixpoint run_task (env : Env) (fuel : nat) (t : task) (w : World) : task * World :=
  match fuel with
  | O => (t, w)
  | S n => let '(t', w') := resume env t w in run_task env n t' w'
  end.

Definition process_image (env : Env) (image_path : Path) (w : World) : World :=
  (run_task env 4 (Created image_path) w).2.

(** ** asyncio.gather

    One event loop: tasks run one at a time and change hands only at an
    [await]. A schedule names, step after step, the task the loop resumes;
    any interleaving of the tasks is some schedule. *)

Definition sweep_state := (list task * World)%type.

Definition resume_nth (env : Env) (st : sweep_state) (i : nat) : sweep_state :=
  match st.1 !! i with
  | Some t => let '(t', w') := resume env t st.2 in (<[i := t']> st.1, w')
  | None => st
  end.

Definition run_schedule (env : Env) (sched : list nat) (st : sweep_state) : sweep_state :=
  fold_left (resume_nth env) sched st.

(** [await asyncio.gather(...)] returns when every task has: tasks the
    schedule left unfinished are then run to their end. *)
Definition drain (env : Env) (st : sweep_state) : sweep_state :=
  fold_left (fun st i => Nat.iter 4 (fun st => resume_nth env st i) st)
            (seq 0 (length st.1)) st.

Definition gather (env : Env) (sched : list nat) (images : list Path) (w : World)
  : sweep_state :=
  drain env (run_schedule env sched (Created <$> images, w)).

(** ** main, up to the start of the live watch *)

(** The comprehension
    [[f for f in WATCH_FOLDER.iterdir() if f.suffix.lower() in IMAGE_EXTENSIONS]]. *)
Definition existing_images (names : list string) : list Path :=
  filter (fun f => is_image f = true) (path_join WATCH_FOLDER <$> names).

Inductive main_result :=
| MainRaises (e : exn)
| MainWatching.

Definition main (env : Env) (sched : list nat) (w : World) : main_result * World :=
  match folder w with
  | None =>
      (MainRaises (mkExn "FileNotFoundError"
                     ("Folder '" +:+ path_str WATCH_FOLDER +:+ "' not found")), w)
  | Some names =>
      let w := with_store initialize_csv w in
      let images := existing_images names in
      let w :=
        match images with
        | [] => w                         (* if existing_images: *)
        | _ => (gather env sched images w).2
        end in
      (MainWatching, w)
  end.

(** ** Predicates used in the statements *)

Definition known_suffixes : list string := [".png"; ".jpg"; ".jpeg"; ".gif"; ".webp"].

(** The files the pipeline itself produces, starting without a file:
    [main] initialises first, then rows are appended. *)
Inductive pipeline_file : csv_file -> Prop :=
| pipeline_created : pipeline_file (initialize_csv None)
| pipeline_initialized f : pipeline_file f -> pipeline_file (initialize_csv f)
| pipeline_appended ts img e f :
    pipeline_file f -> pipeline_file (append_to_csv ts img e f).

(** The number of resumptions a task may still need. *)
Definition task_rank (t : task) : nat :=
  match t with
  | Created _ => 4
  | Sleeping _ => 3
  | Extracting _ _ _ => 2
  | Enriching _ _ _ => 1
  | Done => 0
  end.

(** The states the pipeline of [p] goes through, whatever the others did to
    the world in between. *)
Inductive pipeline_task (env : Env) (p : Path) : task -> Prop :=
| pipeline_start : pipeline_task env p (Created p)
| pipeline_resume t w :
    pipeline_task env p t -> pipeline_task env p (resume env t w).1.

(** The rows the pipeline of [p] appends when extraction answers [ex] and
    enrichment answers [en]. *)
Definition pipeline_rows (env : Env) (p : Path)
    (ex : MenuExtraction) (en : RestaurantEnrichment) : list row :=
  let deduplicated_items := dedup (me_items ex) in
  item_row (now_isoformat env p) (name p)
    (mkEnriched (me_restaurant_name ex) (re_cuisine_type en)
       (re_google_rating en) (re_address en) deduplicated_items)
  <$> deduplicated_items.

(** The rows stand in the store file, next to each other and in order. *)
Definition persisted (rows : list row) (w : World) : Prop :=
  exists before after, store w = Some (before ++ rows ++ after).

(** The task in slot [k] of the sweep and the world satisfy [I]. *)
Definition slot_holds (k : nat) (I : task -> World -> Prop) (st : sweep_state) : Prop :=
  exists t, st.1 !! k = Some t /\ I t st.2.

(** The task in slot [k] needs at most [n] more resumptions. *)
Definition slot_rank_le (n k : nat) (st : sweep_state) : Prop :=
  exists t, st.1 !! k = Some t /\ task_rank t <= n.

(** What is known of the pipeline of [p] at each suspension when its read
    returns [data], its extraction [ex] and its enrichment [en]. *)
Definition good_inv (env : Env) (p : Path) (data : list Byte.byte)
    (ex : MenuExtraction) (en : RestaurantEnrichment) (t : task) (w : World) : Prop :=
  match t with
  | Created q | Sleeping q => q = p
  | Extracting q d mt => q = p /\ d = data /\ mt = get_media_type p
  | Enriching q rn its =>
      q = p /\ rn = me_restaurant_name ex /\ its = dedup (me_items ex)
  | Done => persisted (pipeline_rows env p ex en) w
  end.

(** The same when the extraction raises [e]. *)
Definition failed_inv (p : Path) (data : list Byte.byte) (e : exn)
    (t : task) (w : World) : Prop :=
  match t with
  | Created q | Sleeping q => q = p
  | Extracting q d mt => q = p /\ d = data /\ mt = get_media_type p
  | Enriching _ _ _ => False
  | Done => ErrorReport (error_line p e) ∈ trace w
  end.

Global Instance Path_eq_dec : EqDecision Path.
Proof. solve_decision. Defined.

(** ** Sample data *)

Definition example_item (dish : string) (p : float) : MenuItem :=
  mkMenuItem dish p "EUR" "Lunch" [] None false.

Definition example_menu : list MenuItem :=
  [ example_item "Soup" 5; example_item "soup " 6; example_item "Salad" 4 ].

Definition zero_rated : EnrichedMenuExtraction :=
  mkEnriched "Cafe X" "Cafe" (Some 0%float) "Hameenkatu 1"
    [ example_item "Coffee" 3.5 ].

Definition menu1 : Path := path_join WATCH_FOLDER "menu1.png".
Definition menu2 : Path := path_join WATCH_FOLDER "menu2.jpg".

Definition example_env_ok : Env :=
  mkEnv (fun _ => Returns [])
        (fun _ _ _ => Returns (mkMenuExtraction "Cafe X" example_menu))
        (fun _ _ => Returns (mkRestaurantEnrichment (Some 4.5%float) "Hameenkatu 1" "Cafe"))
        (fun _ => "2026-01-01T12:00:00").

(** As [example_env_ok], but the enrichment agent raises. *)
Definition example_env_enrich_fails : Env :=
  mkEnv (read_bytes example_env_ok)
        (extraction_agent_run example_env_ok)
        (fun _ _ => Raises (mkExn "UnexpectedModelBehavior" "no web results"))
        (now_isoformat example_env_ok).

(** An environment in which the extraction of [menu1] raises and every
    other call answers. *)
Definition example_env_sweep : Env :=
  mkEnv (read_bytes example_env_ok)
        (fun p data media_type =>
           if decide (p = menu1)
           then Raises (mkExn "UnexpectedModelBehavior" "not a menu")
           else extraction_agent_run example_env_ok p data media_type)
        (enrichment_agent_run example_env_ok)
        (now_isoformat example_env_ok).

Definition example_world : World :=
  mkWorld (Some ["menu1.png"; "menu2.jpg"; "notes.txt"]) None [].

Definition example_world_no_folder : World :=
  mkWorld None None [].

(** ** ImageHandler

    [on_created] of the watchdog handler. The event's [src_path] is kept as
    the [Path] built from it. [asyncio.run(process_image(image_path))] runs
    the coroutine alone, on a loop of its own, until it returns. *)

Record FileCreatedEvent := mkFileCreatedEvent {
  is_directory : bool;
  src_path : Path
}.

Definition on_created (env : Env) (event : FileCreatedEvent) (w : World) : World :=
  if is_directory event then w
  else
    let image_path := src_path event in
    if is_image image_path then process_image env image_path w else w.

(** The observer thread hands the events to the handler one after the
    other. *)
Definition dispatch (env : Env) (events : list FileCreatedEvent) (w : World) : World :=
  fold_left (fun w event => on_created env event w) events w.

(** ** The rows a pipeline is still to write

    Read off [try_block] from its last suspension backwards: what the task
    appends to the store if it is run from state [t] to its end. *)

Definition enriching_rows (env : Env) (p : Path)
    (restaurant : string) (deduplicated_items : list MenuItem) : list row :=
  match enrich_restaurant env p restaurant with
  | Returns enrichment =>
      item_row (now_isoformat env p) (name p)
        (mkEnriched restaurant (re_cuisine_type enrichment)
           (re_google_rating enrichment) (re_address enrichment)
           deduplicated_items)
      <$> deduplicated_items
  | Raises _ => []
  end.

Definition extracting_rows (env : Env) (p : Path)
    (image_data : list Byte.byte) (media_type : string) : list row :=
  match extraction_agent_run env p image_data media_type with
  | Returns extraction_result =>
      enriching_rows env p (me_restaurant_name extraction_result)
        (dedup (me_items extraction_result))
  | Raises _ => []
  end.

Definition sleeping_rows (env : Env) (p : Path) : list row :=
  match read_bytes env p with
  | Returns image_data => extracting_rows env p image_data (get_media_type p)
  | Raises _ => []
  end.

Definition pending_rows (env : Env) (t : task) : list row :=
  match t with
  | Created p => if is_image p then sleeping_rows env p else []
  | Sleeping p => sleeping_rows env p
  | Extracting p image_data media_type => extracting_rows env p image_data media_type
  | Enriching p restaurant its => enriching_rows env p restaurant its
  | Done => []
  end.

(** The rows the pipeline of one image writes. *)
Definition image_rows (env : Env) (p : Path) : list row :=
  pending_rows env (Created p).

(** The image a task works on. *)
Definition task_path (t : task) : option Path :=
  match t with
  | Created p | Sleeping p | Extracting p _ _ | Enriching p _ _ => Some p
  | Done => None
  end.

(** ** lesson10.py: one run over the folder [images]

    The script has no functions of its own besides [get_media_type] (the
    same text as above): it lists the folder, asks the agent for every image
    and merges the answers per restaurant in the dict [all_items]. Nothing
    catches an exception. Console output is not modelled. *)

Module Lesson10.

Definition folder : Path := mkPath ["images"].

Definition image_extensions : gset string :=
  {[ ".png"; ".jpg"; ".jpeg"; ".gif"; ".webp" ]}.

(** [all_items : dict[str, list[MenuItem]]], in insertion order. *)
Definition items_dict := list (string * list MenuItem).

(** [k in d] *)
Definition contains (k : string) (d : items_dict) : bool :=
  bool_decide (k ∈ d.*1).

(** [d[k] = v] *)
Fixpoint set_item (k : string) (v : list MenuItem) (d : items_dict) : items_dict :=
  match d with
  | [] => [(k, v)]
  | (k', v') :: r =>
      if decide (k' = k) then (k', v) :: r else (k', v') :: set_item k v r
  end.

(** [d[k].extend(its)]; [None] stands for the [KeyError] of [d[k]]. *)
Fixpoint extend (k : string) (its : list MenuItem) (d : items_dict) : option items_dict :=
  match d with
  | [] => None
  | (k', v) :: r =>
      if decide (k' = k) then Some ((k', v ++ its) :: r)
      else r' ← extend k its r; Some ((k', v) :: r')
  end.

(** [d.get(k)] *)
Fixpoint get (k : string) (d : items_dict) : option (list MenuItem) :=
  match d with
  | [] => None
  | (k', v) :: r => if decide (k' = k) then Some v else get k r
  end.

(** "Merge results into our dictionary". *)
Definition merge (all_items : items_dict) (output : MenuExtraction) : outcome items_dict :=
  let restaurant_name := me_restaurant_name output in
  let all_items :=
    if negb (contains restaurant_name all_items)
    then set_item restaurant_name [] all_items
    else all_items in
  match extend restaurant_name (me_items output) all_items with
  | Some all_items => Returns all_items
  | None => Raises (mkExn "KeyError" restaurant_name)
  end.

(** The [for image_path in folder.iterdir()] loop. *)
Fixpoint process_folder (env : Env) (paths : list Path) (all_items : items_dict)
  : outcome items_dict :=
  match paths with
  | [] => Returns all_items
  | image_path :: rest =>
      if negb (bool_decide (Str.lower (suffix image_path) ∈ image_extensions))
      then process_folder env rest all_items            (* continue *)
      else
        match read_bytes env image_path with
        | Raises e => Raises e
        | Returns image_data =>
            let media_type := get_media_type image_path in
            match extraction_agent_run env image_path image_data media_type with
            | Raises e => Raises e
            | Returns output =>
                match merge all_items output with
                | Raises e => Raises e
                | Returns all_items => process_folder env rest all_items
                end
            end
        end
  end.

(** The script: [listing] is [None] when the folder is missing, else the
    names [iterdir()] yields. *)
Definition script (env : Env) (listing : option (list string)) : outcome items_dict :=
  match listing with
  | None =>
      Raises (mkExn "FileNotFoundError"
                ("Folder '" +:+ path_str folder +:+ "' not found"))
  | Some names => process_folder env (path_join folder <$> names) []
  end.

(** The agent's answers for the images of [paths], in order, or the first
    exception. *)
Fixpoint extractions (env : Env) (paths : list Path) : outcome (list MenuExtraction) :=
  match paths with
  | [] => Returns []
  | image_path :: rest =>
      if negb (bool_decide (Str.lower (suffix image_path) ∈ image_extensions))
      then extractions env rest
      else
        match read_bytes env image_path with
        | Raises e => Raises e
        | Returns image_data =>
            match extraction_agent_run env image_path image_data
                    (get_media_type image_path) with
            | Raises e => Raises e
            | Returns output =>
                match extractions env rest with
                | Raises e => Raises e
                | Returns outputs => Returns (output :: outputs)
                end
            end
        end
  end.

(** The items of the answers that name restaurant [r], in order. *)
Definition items_of (r : string) (outputs : list MenuExtraction) : list MenuItem :=
  concat (me_items <$> filter (fun o => me_restaurant_name o = r) outputs).

(** [all_items] groups the answers [outputs] by restaurant: its keys are the
    restaurant names in the order they are first met, and each name holds
    the items of the answers that carry it. *)
Definition groups (outputs : list MenuExtraction) (d : items_dict) : Prop :=
  d.*1 = first_per_key id (me_restaurant_name <$> outputs) /\
  forall r,
    get r d = if decide (r ∈ me_restaurant_name <$> outputs)
              then Some (items_of r outputs) else None.

End Lesson10.

(** The images of the creation events [on_created] lets through. *)
Definition accepted_paths (events : list FileCreatedEvent) : list Path :=
  src_path <$>
    filter (fun ev => is_directory ev = false /\ is_image (src_path ev) = true) events.

(** ** lesson11.py: the synchronous watch-folder script

    One agent, no enrichment, no de-duplication, seven columns.
    [WATCH_FOLDER], [IMAGE_EXTENSIONS] and [get_media_type] have the same
    text as above and are shared; [agent.run_sync] and [time.sleep] block,
    so [process_image] is an ordinary function and [main] an ordinary loop.
    Console output is not modelled, except the line of the [except] clause. *)

Module Lesson11.

Definition CSV_OUTPUT : Path := mkPath ["menus.csv"].

Definition HEADER : list string :=
  [ "timestamp"; "source_image"; "restaurant_name"; "dish_name"; "price";
    "category"; "dietary_tags" ].

Definition header_row : row := CStr <$> HEADER.

Definition initialize_csv (f : csv_file) : csv_file :=
  if negb (exists_file f)
  then Some (writerow [] header_row)
  else f.

Definition item_row (timestamp source_image : string)
    (extraction : MenuExtraction) (item : MenuItem) : row :=
  [ CStr timestamp;
    CStr source_image;
    CStr (me_restaurant_name extraction);
    CStr (dish_name item);
    CFloat (price item);
    CStr (category item);
    tags_or_empty (dietary_tags item) ].

Definition append_to_csv (timestamp source_image : string)
    (extraction : MenuExtraction) (f : csv_file) : csv_file :=
  Some (fold_left
          (fun rows item =>
             writerow rows (item_row timestamp source_image extraction item))
          (me_items extraction)
          (csv_rows f)).

Definition process_image (env : Env) (image_path : Path) (w : World) : World :=
  if negb (is_image image_path) then w
  else
    match read_bytes env image_path with
    | Raises e => log (ErrorReport (error_line image_path e)) w
    | Returns image_data =>
        let media_type := get_media_type image_path in
        let w := log (ExtractionRequest image_data media_type)
                     (log (ReadBytes image_path) w) in
        match extraction_agent_run env image_path image_data media_type with
        | Raises e => log (ErrorReport (error_line image_path e)) w
        | Returns output =>
            with_store
              (append_to_csv (now_isoformat env image_path) (name image_path) output) w
        end
    end.

(** [main], up to the start of the live watch. *)
Definition main (env : Env) (w : World) : main_result * World :=
  match folder w with
  | None =>
      (MainRaises (mkExn "FileNotFoundError"
                     ("Folder '" +:+ path_str WATCH_FOLDER +:+ "' not found")), w)
  | Some names =>
      let w := with_store initialize_csv w in
      let images := existing_images names in
      (MainWatching, fold_left (fun w image_path => process_image env image_path w) images w)
  end.

(** The rows [process_image] writes for one image. *)
Definition image_rows (env : Env) (p : Path) : list row :=
  if is_image p then
    match read_bytes env p with
    | Raises _ => []
    | Returns image_data =>
        match extraction_agent_run env p image_data (get_media_type p) with
        | Raises _ => []
        | Returns output =>
            item_row (now_isoformat env p) (name p) output <$> me_items output
        end
    end
  else [].

End Lesson11.

(** Two restaurants over three images; [lesson10_failing_env] raises on
    [menu1.png]. *)
Definition lesson10_example_env : Env :=
  mkEnv (fun _ => Returns [])
        (fun p _ _ =>
           Returns (mkMenuExtraction
                      (if decide (name p = "b.png") then "Bistro" else "Cafe X")
                      [example_item (name p) 5]))
        (enrichment_agent_run example_env_ok)
        (now_isoformat example_env_ok).

Definition lesson10_failing_env : Env :=
  mkEnv (read_bytes lesson10_example_env)
        (fun p data media_type =>
           if decide (name p = "menu1.png")
           then Raises (mkExn "UnexpectedModelBehavior" "not a menu")
           else extraction_agent_run lesson10_example_env p data media_type)
        (enrichment_agent_run example_env_ok)
        (now_isoformat example_env_ok).

(** * Proofs *)

(** ** First occurrence per key *)

Section FirstPerKeyFacts.
Context {A K : Type} `{EqDecision K} (key : A -> K).
Implicit Types (seen : list K) (l : list A).

Lemma first_per_key_from_sublist seen l :
  first_per_key_from key seen l `sublist_of` l.
Proof.
  revert seen. induction l as [|x r IH]; intros seen; simpl.
  - constructor.
  - case_decide.
    + apply sublist_cons, IH.
    + apply sublist_skip, IH.
Qed.

Lemma first_per_key_from_fresh seen l x :
  x ∈ first_per_key_from key seen l -> key x ∉ seen.
Proof.
  revert seen. induction l as [|y r IH]; intros seen; simpl.
  - intros Hx. by apply elem_of_nil in Hx.
  - case_decide as Hy.
    + apply IH.
    + intros [-> | Hx]%elem_of_cons; [done|].
      apply IH in Hx. set_solver.
Qed.

Lemma first_per_key_from_NoDup seen l :
  NoDup (key <$> first_per_key_from key seen l).
Proof.
  revert seen. induction l as [|y r IH]; intros seen; simpl.
  - constructor.
  - case_decide as Hy; [apply IH|].
    rewrite fmap_cons. constructor; [|apply IH].
    intros (z & Hz & Hin)%list_elem_of_fmap.
    apply first_per_key_from_fresh in Hin. set_solver.
Qed.

Lemma first_per_key_from_cover seen l x :
  x ∈ l -> key x ∈ seen \/ key x ∈ key <$> first_per_key_from key seen l.
Proof.
  revert seen. induction l as [|y r IH]; intros seen; simpl.
  - intros Hx. by apply elem_of_nil in Hx.
  - intros [-> | Hx]%elem_of_cons.
    + case_decide; [by left|]. right. rewrite fmap_cons. set_solver.
    + case_decide as Hy; [by apply IH|].
      destruct (IH (seen ++ [key y]) Hx) as [[Hs | Hs]%elem_of_app | Hs].
      * by left.
      * apply list_elem_of_singleton in Hs.
        right. rewrite fmap_cons, Hs. apply list_elem_of_here.
      * right. rewrite fmap_cons. by apply list_elem_of_further.
Qed.

(** A kept item sits in the input at a position before which its key does
    not occur. *)
Lemma first_per_key_from_first seen l i x :
  first_per_key_from key seen l !! i = Some x ->
  exists j, l !! j = Some x /\
            forall j' y, j' < j -> l !! j' = Some y -> key y <> key x.
Proof.
  revert seen i. induction l as [|y r IH]; intros seen i; simpl.
  - by rewrite lookup_nil.
  - case_decide as Hy.
    + intros Hi. pose proof Hi as Hin%list_elem_of_lookup_2.
      apply first_per_key_from_fresh in Hin.
      destruct (IH _ _ Hi) as (j & Hj & Hbefore).
      exists (S j). split; [done|].
      intros [|j'] z Hlt; simpl.
      * intros [= <-]. congruence.
      * apply Hbefore. lia.
    + destruct i as [|i]; simpl.
      * intros [= <-]. exists 0. split; [done|]. intros; lia.
      * intros Hi. pose proof Hi as Hin%list_elem_of_lookup_2.
        apply first_per_key_from_fresh in Hin.
        destruct (IH _ _ Hi) as (j & Hj & Hbefore).
        exists (S j). split; [done|].
        intros [|j'] z Hlt; simpl.
        -- intros [= <-] Heq. apply Hin. rewrite <- Heq. set_solver.
        -- apply Hbefore. lia.
Qed.

(** A list whose keys are pairwise distinct and not yet seen is kept whole. *)
Lemma first_per_key_from_fixed seen l :
  NoDup (key <$> l) -> (forall x, x ∈ l -> key x ∉ seen) ->
  first_per_key_from key seen l = l.
Proof.
  revert seen. induction l as [|y r IH]; intros seen Hnd Hfresh; simpl; [done|].
  rewrite fmap_cons in Hnd. apply NoDup_cons in Hnd as [Hy Hnd].
  rewrite decide_False by (apply Hfresh; set_solver).
  f_equal. apply IH; [done|].
  intros x Hx [Hs | Heq%list_elem_of_singleton]%elem_of_app.
  - apply (Hfresh x); [set_solver | done].
  - apply Hy. rewrite <- Heq. by apply list_elem_of_fmap_2.
Qed.

Lemma first_per_key_from_idem seen l :
  first_per_key_from key seen (first_per_key_from key seen l)
  = first_per_key_from key seen l.
Proof.
  apply first_per_key_from_fixed.
  - apply first_per_key_from_NoDup.
  - intros x. apply first_per_key_from_fresh.
Qed.
End FirstPerKeyFacts.

(** ** The de-duplication loop *)

Lemma odict_set_fresh k v (d : odict) :
  k ∉ d.*1 -> odict_set k v d = d ++ [(k, v)].
Proof.
  induction d as [|[k' v'] r IH]; simpl; [done|].
  intros Hk. apply not_elem_of_cons in Hk as [Hne Hk].
  rewrite decide_False by done. by rewrite IH.
Qed.

(** Loop invariant: the dict holds, in order, the items kept so far. *)
Lemma dedup_fold (its : list MenuItem) (acc : odict) :
  fold_left dedup_step its acc
  = acc ++ ((fun x => (item_key x, x)) <$> first_per_key_from item_key acc.*1 its).
Proof.
  revert acc. induction its as [|x r IH]; intros acc; simpl.
  - by rewrite app_nil_r.
  - unfold dedup_step at 2. unfold odict_contains.
    destruct (decide (item_key x ∈ acc.*1)) as [Hin | Hnotin].
    + rewrite bool_decide_eq_true_2 by done. simpl. apply IH.
    + rewrite bool_decide_eq_false_2 by done. simpl.
      rewrite odict_set_fresh by done.
      rewrite IH, fmap_app, fmap_cons. simpl. by rewrite <- app_assoc.
Qed.

Lemma dedup_first_per_key (its : list MenuItem) :
  dedup its = first_per_key item_key its.
Proof.
  unfold dedup, odict_values, first_per_key. rewrite dedup_fold. simpl.
  rewrite <- list_fmap_compose. apply list_fmap_id.
Qed.

(** ** Examples *)

Example dedup_example_menu :
  dedup example_menu = [ example_item "Soup" 5; example_item "Salad" 4 ].
Proof. reflexivity. Qed.

Example dedup_keeps_spelling :
  dish_name <$> dedup [ example_item "  SOUP " 5; example_item "soup" 6 ]
  = [ "  SOUP " ].
Proof. reflexivity. Qed.

(** ** Claims on the de-duplicator *)



(** C8. De-duplicating twice is de-duplicating once. *)
Theorem dedup_idempotent (x : list MenuItem) :
  dedup (dedup x) = dedup x.
Proof.
  rewrite !dedup_first_per_key. apply first_per_key_from_idem.
Qed.

(** C10. A kept item is the very record that comes first in the input among
    the items with its key: no field is rewritten, so the [dish_name]s of the
    result are, in order, [dish_name]s of the input with their spelling and
    blanks as extracted. *)
Theorem dedup_items_unmodified (its : list MenuItem) (i : nat) (x : MenuItem) :
  dedup its !! i = Some x ->
  (exists j, list_find (fun y => item_key y = item_key x) its = Some (j, x)) /\
  (dish_name <$> dedup its) `sublist_of` (dish_name <$> its).
Proof.
  intros Hi. split.
  - rewrite dedup_first_per_key in Hi.
    destruct (first_per_key_from_first item_key [] its i x Hi) as (j & Hj & Hbefore).
    exists j. apply list_find_Some. split_and!; [done | done |].
    intros j' y Hy Hlt. by apply (Hbefore j').
  - apply fmap_sublist. rewrite dedup_first_per_key.
    apply first_per_key_from_sublist.
Qed.

Lemma dedup_items_unmodified_witness :
  (exists j, list_find (fun y => item_key y = item_key (example_item "  SOUP " 5))
               [ example_item "  SOUP " 5; example_item "soup" 6 ]
             = Some (j, example_item "  SOUP " 5)) /\
  (dish_name <$> dedup [ example_item "  SOUP " 5; example_item "soup" 6 ])
    `sublist_of` (dish_name <$> [ example_item "  SOUP " 5; example_item "soup" 6 ]).
Proof.
  apply (dedup_items_unmodified _ 0). reflexivity.
Defined.

(** ** get_media_type *)

Lemma media_types_unknown (sfx : string) :
  sfx ∉ known_suffixes -> media_types !! sfx = None.
Proof. intros Hs. by apply not_elem_of_list_to_map_1. Qed.

Lemma get_media_type_known (p : Path) (sfx mime : string) :
  Str.lower (suffix p) = sfx -> media_types !! sfx = Some mime ->
  get_media_type p = mime.
Proof. unfold get_media_type. by intros -> ->. Qed.

Lemma string_append_cons (a : ascii) (s t : string) :
  String a s +:+ t = String a (s +:+ t).
Proof. reflexivity. Qed.

Lemma string_length_append (s t : string) :
  String.length (s +:+ t) = String.length s + String.length t.
Proof.
  induction s as [|a s IH]; [done|].
  rewrite string_append_cons. simpl. by rewrite IH.
Qed.

Lemma rfind_after_stem (c : ascii) (stem e : string) :
  Str.rfind c e = None ->
  Str.rfind c (stem +:+ String c e) = Some (String.length stem).
Proof.
  intros He. induction stem as [|a s IH].
  - change ("" +:+ String c e) with (String c e). simpl.
    by rewrite He, Ascii.eqb_refl.
  - rewrite string_append_cons. simpl. by rewrite IH.
Qed.

Lemma drop_stem (stem r : string) :
  Str.drop (String.length stem) (stem +:+ r) = r.
Proof.
  induction stem as [|a s IH]; [by destruct r|].
  rewrite string_append_cons. simpl. apply IH.
Qed.

Lemma name_path_join (dir : Path) (n : string) : name (path_join dir n) = n.
Proof. unfold name, path_join. simpl. apply last_last. Qed.

(** The suffix of [stem.ext] is [.ext] when the stem is not empty and the
    extension is a non-empty word without a dot. *)
Lemma suffix_stem_ext (dir : Path) (stem e : string) :
  stem <> "" -> e <> "" -> Str.rfind "." e = None ->
  suffix (path_join dir (stem +:+ String "." e)) = String "." e.
Proof.
  intros Hstem He Hdot. unfold suffix.
  rewrite name_path_join, rfind_after_stem by done.
  rewrite string_length_append. simpl.
  assert (0 < String.length stem) by (destruct stem; [done | simpl; lia]).
  assert (0 < String.length e) by (destruct e; [done | simpl; lia]).
  rewrite (proj2 (Nat.ltb_lt _ _)) by lia.
  rewrite (proj2 (Nat.ltb_lt _ _)) by lia.
  simpl. apply drop_stem.
Qed.

Example get_media_type_upper_case :
  get_media_type (path_join WATCH_FOLDER "menu1.PNG") = "image/png".
Proof. reflexivity. Qed.

Example get_media_type_no_suffix :
  get_media_type (path_join WATCH_FOLDER ".png") = "image/jpeg".
Proof. reflexivity. Qed.

(** C9. [get_media_type] is a function of the path alone, defined on every
    path, and its result is never the empty string. With the suffix of the
    file name taken in lower case: [.png] gives [image/png], [.jpg] and
    [.jpeg] give [image/jpeg], [.gif] gives [image/gif], [.webp] gives
    [image/webp], and every other suffix gives [image/jpeg]. In particular a
    file named [stem.ext], with [ext] one of the five, gets the type of
    [ext]. *)
Theorem get_media_type_total (filepath : Path) :
  let sfx := Str.lower (suffix filepath) in
  get_media_type filepath <> "" /\
  (sfx = ".png" -> get_media_type filepath = "image/png") /\
  (sfx = ".jpg" \/ sfx = ".jpeg" -> get_media_type filepath = "image/jpeg") /\
  (sfx = ".gif" -> get_media_type filepath = "image/gif") /\
  (sfx = ".webp" -> get_media_type filepath = "image/webp") /\
  (sfx ∉ known_suffixes -> get_media_type filepath = "image/jpeg") /\
  (forall dir stem e mime,
     filepath = path_join dir (stem +:+ String "." e) -> stem <> "" ->
     media_types !! String "." e = Some mime -> get_media_type filepath = mime).
Proof.
  intros sfx. split_and!.
  - destruct (decide (sfx ∈ known_suffixes)) as [Hin | Hout].
    + unfold known_suffixes in Hin. unfold get_media_type. fold sfx.
      repeat (apply elem_of_cons in Hin as [-> | Hin]; [done|]).
      by apply elem_of_nil in Hin.
    + unfold get_media_type. fold sfx. by rewrite media_types_unknown.
  - intros Hs. by apply (get_media_type_known _ ".png").
  - intros [Hs | Hs];
      [by apply (get_media_type_known _ ".jpg") | by apply (get_media_type_known _ ".jpeg")].
  - intros Hs. by apply (get_media_type_known _ ".gif").
  - intros Hs. by apply (get_media_type_known _ ".webp").
  - intros Hs. unfold get_media_type. fold sfx. by rewrite media_types_unknown.
  - intros dir stem e mime -> Hstem Hmime.
    assert (String "." e ∈ known_suffixes) as Hin.
    { destruct (decide (String "." e ∈ known_suffixes)) as [|Hout]; [done|].
      by rewrite media_types_unknown in Hmime. }
    apply (get_media_type_known _ (String "." e)); [|done].
    unfold known_suffixes in Hin.
    repeat (apply elem_of_cons in Hin as [[= ->] | Hin];
            [by rewrite suffix_stem_ext|]).
    by apply elem_of_nil in Hin.
Qed.

Lemma get_media_type_total_witness :
  get_media_type (path_join WATCH_FOLDER "menu1.webp") = "image/webp" /\
  get_media_type (path_join WATCH_FOLDER "notes.txt") = "image/jpeg".
Proof.
  split.
  - destruct (get_media_type_total (path_join WATCH_FOLDER "menu1.webp"))
      as (_ & _ & _ & _ & Hwebp & _).
    apply Hwebp. reflexivity.
  - destruct (get_media_type_total (path_join WATCH_FOLDER "notes.txt"))
      as (_ & _ & _ & _ & _ & Hother & _).
    apply Hother. vm_compute. intros Hin.
    repeat (apply elem_of_cons in Hin as [? | Hin]; [done|]).
    by apply elem_of_nil in Hin.
Defined.

(** ** The CSV store *)

Lemma writerow_fold {A} (g : A -> row) (l : list A) (rows : list row) :
  fold_left (fun rows x => writerow rows (g x)) l rows = rows ++ (g <$> l).
Proof.
  revert rows. induction l as [|x r IH]; intros rows; simpl.
  - by rewrite app_nil_r.
  - rewrite IH. unfold writerow. by rewrite <- app_assoc.
Qed.

Lemma append_to_csv_rows_eq (ts img : string) (e : EnrichedMenuExtraction) (f : csv_file) :
  append_to_csv ts img e f = Some (csv_rows f ++ (item_row ts img e <$> items e)).
Proof. unfold append_to_csv. by rewrite writerow_fold. Qed.

(** A data row is never a header row: its price is a number. *)
Lemma item_row_not_header ts img e it : is_header (item_row ts img e it) = false.
Proof. reflexivity. Qed.

Lemma header_row_is_header : is_header header_row = true.
Proof. reflexivity. Qed.

Lemma header_count_append ts img e f :
  header_count (append_to_csv ts img e f) = header_count f.
Proof.
  rewrite append_to_csv_rows_eq. unfold header_count. simpl.
  rewrite filter_app, length_app.
  induction (items e) as [|it r IH]; simpl; [lia|].
  rewrite filter_cons_False; [done|].
  by rewrite item_row_not_header.
Qed.

Lemma pipeline_file_exists f : pipeline_file f -> exists rows, f = Some rows.
Proof.
  induction 1 as [|f _ [rows ->]|ts img e f _ _].
  - by eexists.
  - by eexists.
  - rewrite append_to_csv_rows_eq. by eexists.
Qed.

Lemma pipeline_file_one_header f : pipeline_file f -> header_count f = 1.
Proof.
  induction 1 as [|f Hf IH|ts img e f Hf IH].
  - reflexivity.
  - by destruct (pipeline_file_exists f Hf) as [rows ->].
  - by rewrite header_count_append.
Qed.

(** What [extraction.google_rating or ''] writes. *)
Lemma rating_or_empty_spec (r : option float) :
  match r with
  | None => rating_or_empty r = CStr ""
  | Some x =>
      if PrimFloat.eqb x 0%float
      then rating_or_empty r = CStr ""
      else rating_or_empty r = CFloat x
  end.
Proof.
  destruct r as [x|]; [|done]. unfold rating_or_empty, float_truthy.
  by destruct (PrimFloat.eqb x 0).
Qed.

(** C1, on the code as it is: a rating of [0.0] supplied by the enrichment
    is falsy, so [google_rating or ''] writes the empty string. The
    [google_rating] column of the row is empty although the rating is
    present, and the row does not hold the rating. *)
Theorem zero_rating_written_empty :
  google_rating zero_rated = Some 0%float /\
  exists r : row,
    append_to_csv "2026-01-01T12:00:00" "menu1.png" zero_rated (Some [header_row])
    = Some [header_row; r] /\
    column "google_rating" r = Some (CStr "") /\
    column "google_rating" r <> Some (CFloat 0).
Proof.
  split; [reflexivity|]. eexists. split_and!.
  - reflexivity.
  - reflexivity.
  - vm_compute. intros H.
    apply (f_equal (fun c => match c with Some (CFloat _) => true | _ => false end)) in H.
    discriminate H.
Qed.

(** C4. One call of [append_to_csv] on an extraction with N items leaves
    the earlier rows in place and adds exactly N rows after them, one per
    item in order; the N rows carry the same [timestamp],
    [restaurant_name], [cuisine_type], [google_rating] and [address]. *)
Theorem append_to_csv_rows (ts img : string) (e : EnrichedMenuExtraction) (f : csv_file) :
  exists new : list row,
    append_to_csv ts img e f = Some (csv_rows f ++ new) /\
    length new = length (items e) /\
    Forall (fun r =>
      column "timestamp" r = Some (CStr ts) /\
      column "restaurant_name" r = Some (CStr (restaurant_name e)) /\
      column "cuisine_type" r = Some (CStr (cuisine_type e)) /\
      column "google_rating" r = Some (rating_or_empty (google_rating e)) /\
      column "address" r = Some (CStr (address e))) new /\
    column "dish_name" <$> new = (fun it => Some (CStr (dish_name it))) <$> items e.
Proof.
  exists (item_row ts img e <$> items e). split_and!.
  - apply append_to_csv_rows_eq.
  - apply length_fmap.
  - apply Forall_fmap, Forall_forall. intros it _. simpl. by split_and!.
  - rewrite <- list_fmap_compose. by apply list_fmap_ext.
Qed.

(** C6. [initialize_csv] is idempotent and leaves an existing file as it
    is. Called twice where no file exists, it leaves a file made of the
    header row alone; called twice on any file the pipeline has produced, it
    leaves exactly one header row; on every file, the second call adds no
    header row to what the first call left. *)
Theorem initialize_csv_idempotent :
  (forall f, initialize_csv (initialize_csv f) = initialize_csv f) /\
  (forall rows, initialize_csv (Some rows) = Some rows) /\
  initialize_csv (initialize_csv None) = Some [header_row] /\
  (forall f, pipeline_file f ->
     header_count (initialize_csv (initialize_csv f)) = 1) /\
  (forall f, header_count (initialize_csv (initialize_csv f))
             = header_count (initialize_csv f)).
Proof.
  assert (forall f, initialize_csv (initialize_csv f) = initialize_csv f) as Hidem
    by (by intros [rows|]).
  split_and!.
  - done.
  - done.
  - done.
  - intros f Hf. apply pipeline_file_one_header.
    by do 2 apply pipeline_initialized.
  - intros f. by rewrite Hidem.
Qed.

Lemma initialize_csv_idempotent_witness :
  header_count
    (initialize_csv (initialize_csv
       (append_to_csv "2026-01-01T12:00:00" "menu1.png" zero_rated (initialize_csv None))))
  = 1.
Proof.
  destruct initialize_csv_idempotent as (_ & _ & _ & Hone & _).
  apply Hone. apply pipeline_appended, pipeline_created.
Defined.

(** ** One image's pipeline *)

Example process_image_ok :
  store (process_image example_env_ok menu1 (with_store initialize_csv example_world))
  = Some [ header_row;
           [ CStr "2026-01-01T12:00:00"; CStr "menu1.png"; CStr "Cafe X"; CStr "Soup";
             CFloat 5; CStr "Lunch"; CStr ""; CStr "Cafe"; CFloat 4.5; CStr "Hameenkatu 1" ];
           [ CStr "2026-01-01T12:00:00"; CStr "menu1.png"; CStr "Cafe X"; CStr "Salad";
             CFloat 4; CStr "Lunch"; CStr ""; CStr "Cafe"; CFloat 4.5; CStr "Hameenkatu 1" ] ].
Proof. reflexivity. Qed.

(** A resumption either leaves the store alone or appends to it once. *)
Lemma resume_store (env : Env) (t : task) (w : World) :
  store (resume env t w).2 = store w \/
  exists ts img e, store (resume env t w).2 = append_to_csv ts img e (store w).
Proof.
  destruct t as [p|p|p d mt|p rn its|]; simpl.
  - left. by destruct (is_image p).
  - left. by destruct (read_bytes env p).
  - left. by destruct (extraction_agent_run env p d mt).
  - destruct (enrich_restaurant env p rn); simpl; [right; eauto | by left].
  - by left.
Qed.

(** A resumption only adds to the trace. *)
Lemma resume_trace (env : Env) (t : task) (w : World) :
  exists evs, trace (resume env t w).2 = trace w ++ evs.
Proof.
  destruct t as [p|p|p d mt|p rn its|]; simpl.
  - exists []. rewrite app_nil_r. by destruct (is_image p).
  - destruct (read_bytes env p); simpl; eexists; by rewrite <- ?app_assoc.
  - destruct (extraction_agent_run env p d mt); simpl; by eexists.
  - destruct (enrich_restaurant env p rn); simpl; [exists [] | eexists; done].
    by rewrite app_nil_r.
  - exists []. by rewrite app_nil_r.
Qed.

Lemma resume_folder (env : Env) (t : task) (w : World) :
  folder (resume env t w).2 = folder w.
Proof.
  destruct t as [p|p|p d mt|p rn its|]; simpl; try done.
  - by destruct (is_image p).
  - by destruct (read_bytes env p).
  - by destruct (extraction_agent_run env p d mt).
  - by destruct (enrich_restaurant env p rn).
Qed.

Lemma resume_rank (env : Env) (t : task) (w : World) :
  task_rank (resume env t w).1 <= Nat.pred (task_rank t).
Proof.
  destruct t as [p|p|p d mt|p rn its|]; simpl.
  - destruct (is_image p); simpl; lia.
  - destruct (read_bytes env p); simpl; lia.
  - destruct (extraction_agent_run env p d mt); simpl; lia.
  - destruct (enrich_restaurant env p rn); simpl; lia.
  - lia.
Qed.

Lemma task_rank_0 (t : task) : task_rank t = 0 -> t = Done.
Proof. by destruct t. Qed.

(** The coroutine returns: four resumptions take any task to [Done]. *)
Lemma run_task_done (env : Env) (fuel : nat) (t : task) (w : World) :
  task_rank t <= fuel -> (run_task env fuel t w).1 = Done.
Proof.
  revert t w. induction fuel as [|n IH]; intros t w Hr; simpl.
  - apply task_rank_0. lia.
  - pose proof (resume_rank env t w) as Hstep.
    destruct (resume env t w) as [t' w'] eqn:E. simpl in Hstep.
    apply IH. lia.
Qed.

Section EnrichmentFails.
Context (env : Env) (p : Path) (data : list Byte.byte)
        (ex : MenuExtraction) (e : exn).
Hypothesis Hread : read_bytes env p = Returns data.
Hypothesis Hextract :
  extraction_agent_run env p data (get_media_type p) = Returns ex.
Hypothesis Henrich :
  enrich_restaurant env p (me_restaurant_name ex) = Raises e.

Lemma pipeline_task_shape t :
  pipeline_task env p t ->
  t = Created p \/ t = Sleeping p \/ t = Extracting p data (get_media_type p) \/
  t = Enriching p (me_restaurant_name ex) (dedup (me_items ex)) \/ t = Done.
Proof.
  induction 1 as [|t w _ IH]; [by left|].
  destruct IH as [-> | [-> | [-> | [-> | ->]]]]; simpl.
  - destruct (is_image p); simpl; auto.
  - rewrite Hread. simpl. auto.
  - rewrite Hextract. simpl. auto.
  - rewrite Henrich. simpl. auto 6.
  - auto 6.
Qed.

Lemma pipeline_task_keeps_store t w :
  pipeline_task env p t -> store (resume env t w).2 = store w.
Proof.
  intros [-> | [-> | [-> | [-> | ->]]]]%pipeline_task_shape; simpl.
  - by destruct (is_image p).
  - by rewrite Hread.
  - by rewrite Hextract.
  - by rewrite Henrich.
  - done.
Qed.

Lemma process_image_keeps_store w : store (process_image env p w) = store w.
Proof.
  unfold process_image. simpl.
  destruct (is_image p); simpl; [|done].
  rewrite Hread. simpl. rewrite Hextract. simpl. by rewrite Henrich.
Qed.
End EnrichmentFails.

(** C2. When the image is read and extracted but the enrichment call
    raises, the pipeline of that image writes no row: run alone,
    [process_image] leaves the store file as it found it, and so does every
    single resumption of that pipeline when it is interleaved with others. *)
Theorem enrichment_failure_writes_nothing
    (env : Env) (p : Path) (data : list Byte.byte) (ex : MenuExtraction) (e : exn) :
  read_bytes env p = Returns data ->
  extraction_agent_run env p data (get_media_type p) = Returns ex ->
  enrich_restaurant env p (me_restaurant_name ex) = Raises e ->
  (forall w, store (process_image env p w) = store w) /\
  (forall t w, pipeline_task env p t -> store (resume env t w).2 = store w).
Proof.
  intros Hread Hextract Henrich. split.
  - intros w. by eapply process_image_keeps_store.
  - intros t w. by eapply pipeline_task_keeps_store.
Qed.

Lemma enrichment_failure_writes_nothing_witness :
  store (process_image example_env_enrich_fails menu1
           (with_store initialize_csv example_world))
  = Some [header_row].
Proof.
  refine (proj1 (enrichment_failure_writes_nothing
                   example_env_enrich_fails menu1 []
                   (mkMenuExtraction "Cafe X" example_menu)
                   (mkExn "UnexpectedModelBehavior" "no web results")
                   eq_refl eq_refl eq_refl) _).
Defined.

(** ** The sweep *)

Lemma resume_nth_length (env : Env) (st : sweep_state) (i : nat) :
  length (resume_nth env st i).1 = length st.1.
Proof.
  unfold resume_nth. destruct (st.1 !! i) as [t|]; [|done].
  destruct (resume env t st.2). simpl. apply length_insert.
Qed.

Lemma resume_nth_at (env : Env) (st : sweep_state) (i : nat) (t : task) :
  st.1 !! i = Some t ->
  (resume_nth env st i).1 !! i = Some (resume env t st.2).1 /\
  (resume_nth env st i).2 = (resume env t st.2).2.
Proof.
  intros Hi. unfold resume_nth. rewrite Hi.
  destruct (resume env t st.2) as [t' w'] eqn:E. simpl. split; [|done].
  apply list_lookup_insert_eq. by eapply lookup_lt_Some.
Qed.

Lemma resume_nth_other (env : Env) (st : sweep_state) (i k : nat) :
  i <> k -> (resume_nth env st i).1 !! k = st.1 !! k.
Proof.
  intros Hne. unfold resume_nth. destruct (st.1 !! i) as [t|]; [|done].
  destruct (resume env t st.2). simpl. by apply list_lookup_insert_ne.
Qed.

Lemma resume_nth_world (env : Env) (st : sweep_state) (i : nat) :
  (resume_nth env st i).2 = st.2 \/
  exists t, (resume_nth env st i).2 = (resume env t st.2).2.
Proof.
  unfold resume_nth. destruct (st.1 !! i) as [t|]; [|by left].
  right. exists t. by destruct (resume env t st.2).
Qed.

(** A property of the task in slot [k] and of the world that the task's own
    resumptions maintain, and that no resumption of another task breaks, holds
    all along the sweep. *)
Section SlotInvariant.
Context (env : Env) (k : nat) (I : task -> World -> Prop).
Hypothesis I_step : forall t w, I t w -> I (resume env t w).1 (resume env t w).2.
Hypothesis I_frame : forall t t' w, I t w -> I t (resume env t' w).2.

Lemma slot_holds_resume_nth st i :
  slot_holds k I st -> slot_holds k I (resume_nth env st i).
Proof.
  intros (t & Hk & HI). destruct (decide (i = k)) as [-> | Hne].
  - destruct (resume_nth_at env st k t Hk) as [Ht Hw].
    exists (resume env t st.2).1. split; [done|]. rewrite Hw. by apply I_step.
  - exists t. split; [by rewrite resume_nth_other|].
    destruct (resume_nth_world env st i) as [-> | [t' ->]]; [done|].
    by apply I_frame.
Qed.

Lemma slot_holds_run_schedule sched st :
  slot_holds k I st -> slot_holds k I (run_schedule env sched st).
Proof.
  revert st. induction sched as [|i r IH]; intros st Hst; simpl; [done|].
  by apply IH, slot_holds_resume_nth.
Qed.

Lemma slot_holds_iter n i st :
  slot_holds k I st -> slot_holds k I (Nat.iter n (fun st => resume_nth env st i) st).
Proof.
  intros Hst. induction n as [|n IH]; simpl; [done|].
  by apply slot_holds_resume_nth.
Qed.

Lemma slot_holds_drain_from (l : list nat) st :
  slot_holds k I st ->
  slot_holds k I (fold_left (fun st i => Nat.iter 4 (fun st => resume_nth env st i) st) l st).
Proof.
  revert st. induction l as [|i r IH]; intros st Hst; simpl; [done|].
  apply IH. by apply (slot_holds_iter 4).
Qed.

Lemma slot_holds_drain st : slot_holds k I st -> slot_holds k I (drain env st).
Proof. apply slot_holds_drain_from. Qed.
End SlotInvariant.

Lemma slot_rank_resume_nth env n k st i :
  slot_rank_le n k st -> slot_rank_le n k (resume_nth env st i).
Proof.
  apply (slot_holds_resume_nth env k (fun t _ => task_rank t <= n)).
  - intros t w Hr. pose proof (resume_rank env t w). lia.
  - done.
Qed.

Lemma slot_rank_resume_own env n k st :
  slot_rank_le n k st -> slot_rank_le (Nat.pred n) k (resume_nth env st k).
Proof.
  intros (t & Hk & Hr). destruct (resume_nth_at env st k t Hk) as [Ht _].
  eexists. split; [done|]. pose proof (resume_rank env t st.2). lia.
Qed.

Lemma slot_rank_iter_own env k st :
  k < length st.1 ->
  slot_rank_le 0 k (Nat.iter 4 (fun st => resume_nth env st k) st).
Proof.
  intros Hk. destruct (lookup_lt_is_Some_2 _ _ Hk) as [t Ht].
  assert (slot_rank_le 4 k st) as H4.
  { exists t. split; [done|]. destruct t; simpl; lia. }
  simpl. by do 4 apply (slot_rank_resume_own env) in H4.
Qed.

Lemma slot_rank_drain_from env k (l : list nat) st :
  (k ∈ l /\ k < length st.1) \/ slot_rank_le 0 k st ->
  slot_rank_le 0 k
    (fold_left (fun st i => Nat.iter 4 (fun st => resume_nth env st i) st) l st).
Proof.
  revert st. induction l as [|i r IH]; intros st Hk; simpl.
  - destruct Hk as [[Hk _] | Hk]; [by apply elem_of_nil in Hk | done].
  - apply IH. destruct Hk as [[[-> | Hk]%elem_of_cons Hlen] | Hk].
    + right. by apply slot_rank_iter_own.
    + left. split; [done|].
      clear -Hlen. simpl. by rewrite !resume_nth_length.
    + right. simpl. by do 4 apply (slot_rank_resume_nth env).
Qed.

Lemma drain_length env st : length (drain env st).1 = length st.1.
Proof.
  unfold drain. generalize (seq 0 (length st.1)). intros l.
  revert st. induction l as [|i r IH]; intros st; simpl; [done|].
  rewrite IH. by rewrite !resume_nth_length.
Qed.

Lemma run_schedule_length env sched st :
  length (run_schedule env sched st).1 = length st.1.
Proof.
  unfold run_schedule. revert st.
  induction sched as [|i r IH]; intros st; simpl; [done|].
  by rewrite IH, resume_nth_length.
Qed.

Lemma gather_all_done env sched images w :
  Forall (fun t => t = Done) (gather env sched images w).1.
Proof.
  apply Forall_lookup. intros k t Hk.
  assert (k < length (run_schedule env sched (Created <$> images, w)).1) as Hlen.
  { apply lookup_lt_Some in Hk. unfold gather in Hk.
    by rewrite drain_length in Hk. }
  destruct (slot_rank_drain_from env k
              (seq 0 (length (run_schedule env sched (Created <$> images, w)).1))
              (run_schedule env sched (Created <$> images, w)))
    as (t' & Ht' & Hr).
  { left. split; [|done]. apply elem_of_seq. lia. }
  unfold gather, drain in Hk. rewrite Hk in Ht'. injection Ht' as <-.
  apply task_rank_0. lia.
Qed.

Lemma persisted_resume env rows t w :
  persisted rows w -> persisted rows (resume env t w).2.
Proof.
  intros (before & after & Hw). unfold persisted.
  destruct (resume_store env t w) as [-> | (ts & img & e & ->)].
  - by exists before, after.
  - rewrite append_to_csv_rows_eq, Hw. simpl.
    exists before, (after ++ (item_row ts img e <$> items e)).
    by rewrite <- !app_assoc.
Qed.

Lemma reported_resume env ev t w :
  ev ∈ trace w -> ev ∈ trace (resume env t w).2.
Proof.
  intros Hev. destruct (resume_trace env t w) as [evs ->].
  apply elem_of_app. by left.
Qed.

Section GoodImage.
Context (env : Env) (p : Path) (data : list Byte.byte)
        (ex : MenuExtraction) (en : RestaurantEnrichment).
Hypothesis Himage : is_image p = true.
Hypothesis Hread : read_bytes env p = Returns data.
Hypothesis Hextract :
  extraction_agent_run env p data (get_media_type p) = Returns ex.
Hypothesis Henrich :
  enrich_restaurant env p (me_restaurant_name ex) = Returns en.

Lemma good_inv_step t w :
  good_inv env p data ex en t w ->
  good_inv env p data ex en (resume env t w).1 (resume env t w).2.
Proof.
  destruct t as [q|q|q d mt|q rn its|]; simpl.
  - intros ->. by rewrite Himage.
  - intros ->. by rewrite Hread.
  - intros (-> & -> & ->). by rewrite Hextract.
  - intros (-> & -> & ->). rewrite Henrich. simpl.
    exists (csv_rows (store w)), []. unfold with_store. simpl.
    by rewrite append_to_csv_rows_eq, app_nil_r.
  - done.
Qed.

Lemma good_inv_frame t t' w :
  good_inv env p data ex en t w -> good_inv env p data ex en t (resume env t' w).2.
Proof. destruct t; simpl; try done. apply persisted_resume. Qed.
End GoodImage.

Section FailedImage.
Context (env : Env) (p : Path) (data : list Byte.byte) (e : exn).
Hypothesis Himage : is_image p = true.
Hypothesis Hread : read_bytes env p = Returns data.
Hypothesis Hextract :
  extraction_agent_run env p data (get_media_type p) = Raises e.

Lemma failed_inv_step t w :
  failed_inv p data e t w ->
  failed_inv p data e (resume env t w).1 (resume env t w).2.
Proof.
  destruct t as [q|q|q d mt|q rn its|]; simpl.
  - intros ->. by rewrite Himage.
  - intros ->. by rewrite Hread.
  - intros (-> & -> & ->). rewrite Hextract. simpl.
    apply elem_of_app. right. apply list_elem_of_here.
  - done.
  - done.
Qed.

Lemma failed_inv_frame t t' w :
  failed_inv p data e t w -> failed_inv p data e t (resume env t' w).2.
Proof. destruct t; simpl; try done. apply reported_resume. Qed.
End FailedImage.

(** What holds of a slot at the start holds, for the finished task, when
    [gather] returns. *)
Lemma gather_slot env sched images w k p (I : task -> World -> Prop) :
  (forall t w, I t w -> I (resume env t w).1 (resume env t w).2) ->
  (forall t t' w, I t w -> I t (resume env t' w).2) ->
  images !! k = Some p -> I (Created p) w ->
  I Done (gather env sched images w).2.
Proof.
  intros Hstep Hframe Hk Hstart.
  assert (slot_holds k I (gather env sched images w)) as (t & Ht & HI).
  { apply (slot_holds_drain env k I Hstep Hframe).
    apply (slot_holds_run_schedule env k I Hstep Hframe).
    exists (Created p). split; [|done]. simpl.
    by rewrite list_lookup_fmap, Hk. }
  pose proof (gather_all_done env sched images w) as Hdone.
  rewrite Forall_lookup in Hdone. by rewrite (Hdone k t Ht) in HI.
Qed.

(** ** main *)

Lemma main_sweep env sched w names :
  folder w = Some names -> existing_images names <> [] ->
  main env sched w
  = (MainWatching,
     (gather env sched (existing_images names) (with_store initialize_csv w)).2).
Proof.
  intros Hf Hne. unfold main. rewrite Hf.
  by destruct (existing_images names).
Qed.

Lemma existing_images_lookup names n :
  n ∈ names -> is_image (path_join WATCH_FOLDER n) = true ->
  exists k, existing_images names !! k = Some (path_join WATCH_FOLDER n).
Proof.
  intros Hn Himg. apply list_elem_of_lookup_1, list_elem_of_filter.
  split; [done|]. by apply list_elem_of_fmap_2.
Qed.

Example main_sweep_interleaved :
  let '(result, w) := main example_env_sweep [1; 0; 0; 1; 1; 0] example_world in
  result = MainWatching /\
  store w = Some (header_row ::
                  pipeline_rows example_env_sweep menu2
                    (mkMenuExtraction "Cafe X" example_menu)
                    (mkRestaurantEnrichment (Some 4.5%float) "Hameenkatu 1" "Cafe")) /\
  trace w = [ ReadBytes menu1; ExtractionRequest [] "image/png";
              ReadBytes menu2; ExtractionRequest [] "image/jpeg";
              EnrichmentRequest (enrichment_prompt "Cafe X");
              ErrorReport "   Error processing menu1.png: not a menu" ].
Proof. vm_compute. done. Qed.

(** C5. In the sweep of [main], under every schedule of the event loop: when
    the extraction of image A raises, the exception is caught inside A's
    own pipeline, which reports it and returns; [gather] returns, [main]
    goes on to the live watch, and every image B of the sweep whose
    read, extraction and enrichment answer has its rows in the store. *)
Theorem sweep_isolates_extraction_failure
    (env : Env) (sched : list nat) (w : World) (names : list string)
    (a b : string) (dataA dataB : list Byte.byte) (eA : exn)
    (ex : MenuExtraction) (en : RestaurantEnrichment) :
  let A := path_join WATCH_FOLDER a in
  let B := path_join WATCH_FOLDER b in
  folder w = Some names -> a ∈ names -> b ∈ names ->
  is_image A = true -> is_image B = true ->
  read_bytes env A = Returns dataA ->
  extraction_agent_run env A dataA (get_media_type A) = Raises eA ->
  read_bytes env B = Returns dataB ->
  extraction_agent_run env B dataB (get_media_type B) = Returns ex ->
  enrich_restaurant env B (me_restaurant_name ex) = Returns en ->
  exists w',
    main env sched w = (MainWatching, w') /\
    Forall (fun t => t = Done)
      (gather env sched (existing_images names) (with_store initialize_csv w)).1 /\
    persisted (pipeline_rows env B ex en) w' /\
    ErrorReport (error_line A eA) ∈ trace w'.
Proof.
  intros A B Hfolder Ha Hb HimgA HimgB HreadA HextA HreadB HextB HenrB.
  destruct (existing_images_lookup names a Ha HimgA) as [kA HkA].
  destruct (existing_images_lookup names b Hb HimgB) as [kB HkB].
  eexists. split_and!.
  - apply main_sweep; [done|]. intros Hnil. by rewrite Hnil in HkB.
  - apply gather_all_done.
  - apply (gather_slot env sched _ _ kB B (good_inv env B dataB ex en)).
    + by apply good_inv_step.
    + apply good_inv_frame.
    + done.
    + done.
  - apply (gather_slot env sched _ _ kA A (failed_inv A dataA eA)).
    + by apply failed_inv_step.
    + apply failed_inv_frame.
    + done.
    + done.
Qed.

Lemma sweep_isolates_extraction_failure_witness :
  exists w',
    main example_env_sweep [1; 0; 0; 1; 1; 0] example_world = (MainWatching, w') /\
    Forall (fun t => t = Done)
      (gather example_env_sweep [1; 0; 0; 1; 1; 0]
         (existing_images ["menu1.png"; "menu2.jpg"; "notes.txt"])
         (with_store initialize_csv example_world)).1 /\
    persisted
      (pipeline_rows example_env_sweep menu2
         (mkMenuExtraction "Cafe X" example_menu)
         (mkRestaurantEnrichment (Some 4.5%float) "Hameenkatu 1" "Cafe")) w' /\
    ErrorReport (error_line menu1 (mkExn "UnexpectedModelBehavior" "not a menu"))
      ∈ trace w'.
Proof.
  apply (sweep_isolates_extraction_failure
           example_env_sweep [1; 0; 0; 1; 1; 0] example_world
           ["menu1.png"; "menu2.jpg"; "notes.txt"] "menu1.png" "menu2.jpg" [] []).
  - reflexivity.
  - apply list_elem_of_here.
  - apply list_elem_of_further, list_elem_of_here.
  - reflexivity.
  - reflexivity.
  - reflexivity.
  - reflexivity.
  - reflexivity.
  - reflexivity.
  - reflexivity.
Defined.

(** C7. When the watched folder does not exist, [main] raises at once: the
    error is a [FileNotFoundError] (the start-up configuration error of the
    pipeline) whose message names the folder, and the world is as it was:
    the store file is neither created nor touched, no file has been read and
    no agent has been called. *)
Theorem main_missing_folder (env : Env) (sched : list nat) (w : World) :
  folder w = None ->
  exists e,
    main env sched w = (MainRaises e, w) /\
    exn_type e = "FileNotFoundError" /\
    exn_msg e = "Folder 'images_watchfolder' not found" /\
    store (main env sched w).2 = store w /\
    trace (main env sched w).2 = trace w.
Proof.
  intros Hfolder. unfold main. rewrite Hfolder.
  eexists. split_and!; reflexivity.
Qed.

Lemma main_missing_folder_witness :
  exists e,
    main example_env_ok [0; 1] example_world_no_folder
    = (MainRaises e, example_world_no_folder) /\
    exn_type e = "FileNotFoundError" /\
    exn_msg e = "Folder 'images_watchfolder' not found" /\
    store (main example_env_ok [0; 1] example_world_no_folder).2 = None /\
    trace (main example_env_ok [0; 1] example_world_no_folder).2 = [].
Proof.
  apply (main_missing_folder example_env_ok [0; 1] example_world_no_folder).
  reflexivity.
Defined.

(** * Further properties of the code *)

(** ** De-duplication: fixed points and concatenation *)

Section FirstPerKeyAppend.
Context {A K : Type} `{EqDecision K} (key : A -> K).
Implicit Types (seen : list K) (l : list A).

(** Only the set of keys seen matters. *)
Lemma first_per_key_from_seen_ext seen1 seen2 l :
  (forall k, k ∈ seen1 <-> k ∈ seen2) ->
  first_per_key_from key seen1 l = first_per_key_from key seen2 l.
Proof.
  revert seen1 seen2. induction l as [|x r IH]; intros s1 s2 Hs; simpl; [done|].
  destruct (decide (key x ∈ s1)) as [H1 | H1].
  - rewrite decide_True by (by apply Hs). by apply IH.
  - rewrite decide_False by (by rewrite <- Hs). f_equal. apply IH.
    intros k. rewrite !elem_of_app. by rewrite Hs.
Qed.

(** Keys seen beforehand filter the result. *)
Lemma first_per_key_from_filter seen1 seen2 l :
  first_per_key_from key (seen1 ++ seen2) l
  = filter (fun x => key x ∉ seen1) (first_per_key_from key seen2 l).
Proof.
  revert seen2. induction l as [|x r IH]; intros s2; simpl; [done|].
  destruct (decide (key x ∈ s2)) as [H2 | H2].
  - rewrite decide_True by (apply elem_of_app; by right). apply IH.
  - destruct (decide (key x ∈ seen1)) as [H1 | H1].
    + rewrite decide_True by (apply elem_of_app; by left).
      rewrite filter_cons_False by (by intros Hn).
      rewrite <- IH. apply first_per_key_from_seen_ext.
      intros k. rewrite !elem_of_app, list_elem_of_singleton.
      split; [tauto|]. intros [Hk | [Hk | ->]]; tauto.
    + rewrite decide_False by (rewrite elem_of_app; tauto).
      rewrite filter_cons_True by done. f_equal.
      rewrite <- IH. by rewrite app_assoc.
Qed.

Lemma first_per_key_from_app seen l1 l2 :
  first_per_key_from key seen (l1 ++ l2)
  = first_per_key_from key seen l1
    ++ first_per_key_from key (seen ++ (key <$> first_per_key_from key seen l1)) l2.
Proof.
  revert seen. induction l1 as [|x r IH]; intros seen; simpl.
  - by rewrite app_nil_r.
  - case_decide as Hx; [apply IH|].
    simpl. f_equal. rewrite IH. f_equal.
    by rewrite <- app_assoc.
Qed.

(** With the keys seen, the keys kept are the keys of the input. *)
Lemma first_per_key_from_keys seen l k :
  k ∈ seen ++ (key <$> first_per_key_from key seen l) <-> k ∈ seen ++ (key <$> l).
Proof.
  rewrite !elem_of_app. split.
  - intros [Hk | Hk]; [by left | right].
    apply list_elem_of_fmap in Hk as (x & -> & Hx).
    apply list_elem_of_fmap_2.
    eapply elem_of_sublist; [done | apply first_per_key_from_sublist].
  - intros [Hk | Hk]; [by left|].
    apply list_elem_of_fmap in Hk as (x & -> & Hx).
    by apply first_per_key_from_cover.
Qed.
End FirstPerKeyAppend.

Lemma dedup_sublist (its : list MenuItem) : dedup its `sublist_of` its.
Proof. rewrite dedup_first_per_key. apply first_per_key_from_sublist. Qed.



(** X2. De-duplicating a concatenation: the items kept from the first list,
    followed by the items kept from the second whose key does not occur in
    the first. A list followed by itself gives what the list alone gives. *)
Theorem dedup_app (its1 its2 : list MenuItem) :
  dedup (its1 ++ its2)
  = dedup its1 ++ filter (fun x => item_key x ∉ item_key <$> its1) (dedup its2) /\
  dedup (its1 ++ its1) = dedup its1.
Proof.
  assert (forall l1 l2, dedup (l1 ++ l2)
    = dedup l1 ++ filter (fun x => item_key x ∉ item_key <$> l1) (dedup l2)) as Happ.
  { intros l1 l2. rewrite !dedup_first_per_key. unfold first_per_key.
    rewrite first_per_key_from_app. f_equal.
    rewrite <- (first_per_key_from_filter item_key (item_key <$> l1) []).
    apply first_per_key_from_seen_ext. intros k.
    rewrite (first_per_key_from_keys item_key [] l1 k). by rewrite app_nil_r. }
  split; [apply Happ|].
  rewrite Happ.
  assert (filter (fun x => item_key x ∉ item_key <$> its1) (dedup its1) = []) as ->;
    [|by rewrite app_nil_r].
  apply elem_of_nil_inv. intros x [Hout Hx]%list_elem_of_filter.
  apply Hout, list_elem_of_fmap_2.
  eapply elem_of_sublist; [done | apply dedup_sublist].
Qed.

(** ** The media table and the accepted extensions *)

Lemma media_types_dom : dom media_types = IMAGE_EXTENSIONS.
Proof. reflexivity. Qed.

(** X3. The keys of [media_types] are exactly [IMAGE_EXTENSIONS]: a path
    that [process_image] accepts gets its media type from the table, and the
    default of [media_types.get] is taken only for paths it rejects. *)
Theorem media_types_cover_image_extensions :
  dom media_types = IMAGE_EXTENSIONS /\
  forall p : Path,
    (is_image p = true ->
       media_types !! Str.lower (suffix p) = Some (get_media_type p)) /\
    (media_types !! Str.lower (suffix p) = None -> is_image p = false).
Proof.
  split; [apply media_types_dom|]. intros p. unfold is_image, get_media_type. split.
  - intros Himg%bool_decide_eq_true.
    rewrite <- media_types_dom in Himg. apply elem_of_dom in Himg as [mime ->]. done.
  - intros Hnone. apply bool_decide_eq_false.
    rewrite <- media_types_dom. by apply not_elem_of_dom.
Qed.

Lemma media_types_cover_image_extensions_witness :
  media_types !! Str.lower (suffix menu2) = Some (get_media_type menu2).
Proof.
  destruct media_types_cover_image_extensions as [_ Hp].
  apply (Hp menu2). reflexivity.
Defined.

(** ** What one pipeline does to the world *)

Lemma resume_pending (env : Env) (t : task) (w : World) :
  csv_rows (store (resume env t w).2) ++ pending_rows env (resume env t w).1
  = csv_rows (store w) ++ pending_rows env t.
Proof.
  destruct t as [p|p|p d mt|p rn its|]; simpl.
  - by destruct (is_image p).
  - unfold sleeping_rows. by destruct (read_bytes env p).
  - unfold extracting_rows. by destruct (extraction_agent_run env p d mt).
  - unfold enriching_rows. destruct (enrich_restaurant env p rn); simpl; [|done].
    by rewrite writerow_fold, app_nil_r.
  - done.
Qed.

Lemma run_task_pending (env : Env) (fuel : nat) (t : task) (w : World) :
  csv_rows (store (run_task env fuel t w).2)
  ++ pending_rows env (run_task env fuel t w).1
  = csv_rows (store w) ++ pending_rows env t.
Proof.
  revert t w. induction fuel as [|n IH]; intros t w; simpl; [done|].
  pose proof (resume_pending env t w) as Hstep.
  destruct (resume env t w) as [t' w']. simpl in Hstep. by rewrite IH.
Qed.

Lemma run_task_trace (env : Env) (fuel : nat) (t : task) (w : World) :
  exists evs, trace (run_task env fuel t w).2 = trace w ++ evs.
Proof.
  revert t w. induction fuel as [|n IH]; intros t w; simpl.
  - exists []. by rewrite app_nil_r.
  - destruct (resume_trace env t w) as [evs1 H1].
    destruct (resume env t w) as [t' w']. simpl in H1.
    destruct (IH t' w') as [evs2 ->]. exists (evs1 ++ evs2).
    by rewrite H1, app_assoc.
Qed.

Lemma run_task_folder (env : Env) (fuel : nat) (t : task) (w : World) :
  folder (run_task env fuel t w).2 = folder w.
Proof.
  revert t w. induction fuel as [|n IH]; intros t w; simpl; [done|].
  pose proof (resume_folder env t w) as Hstep.
  destruct (resume env t w) as [t' w']. simpl in Hstep. by rewrite IH.
Qed.

(** The rows of a task carry the name of its image and none is a header. *)
Lemma pending_rows_tagged (env : Env) (t : task) (p : Path) :
  task_path t = Some p ->
  Forall (fun r => column "source_image" r = Some (CStr (name p)) /\
                   is_header r = false)
         (pending_rows env t).
Proof.
  assert (forall rn its, Forall (fun r =>
            column "source_image" r = Some (CStr (name p)) /\ is_header r = false)
            (enriching_rows env p rn its)) as Henr.
  { intros rn its. unfold enriching_rows.
    destruct (enrich_restaurant env p rn); [|constructor].
    apply Forall_fmap, Forall_forall. by intros it _. }
  assert (forall d mt, Forall (fun r =>
            column "source_image" r = Some (CStr (name p)) /\ is_header r = false)
            (extracting_rows env p d mt)) as Hext.
  { intros d mt. unfold extracting_rows.
    destruct (extraction_agent_run env p d mt); [apply Henr | constructor]. }
  assert (Forall (fun r =>
            column "source_image" r = Some (CStr (name p)) /\ is_header r = false)
            (sleeping_rows env p)) as Hsl.
  { unfold sleeping_rows. destruct (read_bytes env p); [apply Hext | constructor]. }
  destruct t as [q|q|q d mt|q rn its|]; simpl; intros [= ->]; try done.
  destruct (is_image p); [done | constructor].
Qed.

(** X4. Whatever the outside answers, [process_image] keeps the rows
    already in the store and adds after them the rows of its image, which
    all carry the image's file name and none of which is a header row; it
    only adds to the trace and leaves the watched folder alone. *)
Theorem process_image_append_only (env : Env) (p : Path) (w : World) :
  csv_rows (store (process_image env p w)) = csv_rows (store w) ++ image_rows env p /\
  Forall (fun r => column "source_image" r = Some (CStr (name p)) /\
                   is_header r = false)
         (image_rows env p) /\
  (exists evs, trace (process_image env p w) = trace w ++ evs) /\
  folder (process_image env p w) = folder w.
Proof.
  unfold process_image. split_and!.
  - pose proof (run_task_pending env 4 (Created p) w) as Hrows.
    rewrite (run_task_done env 4 (Created p) w) in Hrows by (simpl; lia).
    simpl in Hrows. by rewrite app_nil_r in Hrows.
  - by apply pending_rows_tagged.
  - apply run_task_trace.
  - apply run_task_folder.
Qed.

(** X5. When the read, the extraction and the enrichment all answer, the
    pipeline reads the file once, calls each agent once, in that order, and
    appends one row per de-duplicated item, never more rows than items
    extracted. *)
Theorem process_image_success
    (env : Env) (p : Path) (w : World) (data : list Byte.byte)
    (ex : MenuExtraction) (en : RestaurantEnrichment) :
  is_image p = true ->
  read_bytes env p = Returns data ->
  extraction_agent_run env p data (get_media_type p) = Returns ex ->
  enrich_restaurant env p (me_restaurant_name ex) = Returns en ->
  process_image env p w
  = mkWorld (folder w)
      (Some (csv_rows (store w) ++ pipeline_rows env p ex en))
      (trace w ++ [ ReadBytes p;
                    ExtractionRequest data (get_media_type p);
                    EnrichmentRequest (enrichment_prompt (me_restaurant_name ex)) ]) /\
  length (pipeline_rows env p ex en) <= length (me_items ex).
Proof.
  intros Himg Hread Hext Henr. split.
  - unfold process_image. simpl. rewrite Himg. simpl.
    rewrite Hread. simpl. rewrite Hext. simpl. rewrite Henr. simpl.
    unfold with_store, log. simpl.
    rewrite append_to_csv_rows_eq. by rewrite <- !app_assoc.
  - unfold pipeline_rows. rewrite length_fmap.
    apply sublist_length, dedup_sublist.
Qed.

Lemma process_image_success_witness :
  process_image example_env_ok menu1 (with_store initialize_csv example_world)
  = mkWorld (Some ["menu1.png"; "menu2.jpg"; "notes.txt"])
      (Some ([header_row] ++
             pipeline_rows example_env_ok menu1
               (mkMenuExtraction "Cafe X" example_menu)
               (mkRestaurantEnrichment (Some 4.5%float) "Hameenkatu 1" "Cafe")))
      [ ReadBytes menu1; ExtractionRequest [] "image/png";
        EnrichmentRequest (enrichment_prompt "Cafe X") ] /\
  length (pipeline_rows example_env_ok menu1
            (mkMenuExtraction "Cafe X" example_menu)
            (mkRestaurantEnrichment (Some 4.5%float) "Hameenkatu 1" "Cafe")) <= 3.
Proof.
  apply (process_image_success example_env_ok menu1
           (with_store initialize_csv example_world) []
           (mkMenuExtraction "Cafe X" example_menu)
           (mkRestaurantEnrichment (Some 4.5%float) "Hameenkatu 1" "Cafe"));
    reflexivity.
Defined.

(** X6. An exception stops the pipeline where it is raised. When
    [read_bytes] raises, no agent is called; when the extraction raises, the
    enrichment agent is not called. In both cases the store is as before and
    the one thing added after the calls made is the error line, which names
    the file and carries the exception's message. *)
Theorem process_image_failure_stops
    (env : Env) (p : Path) (w : World) (e : exn) :
  is_image p = true ->
  (read_bytes env p = Raises e ->
     process_image env p w
     = mkWorld (folder w) (store w)
         (trace w ++ [ ErrorReport (error_line p e) ])) /\
  (forall data,
     read_bytes env p = Returns data ->
     extraction_agent_run env p data (get_media_type p) = Raises e ->
     process_image env p w
     = mkWorld (folder w) (store w)
         (trace w ++ [ ReadBytes p;
                       ExtractionRequest data (get_media_type p);
                       ErrorReport (error_line p e) ])).
Proof.
  intros Himg. split.
  - intros Hread. unfold process_image. simpl. rewrite Himg. simpl.
    by rewrite Hread.
  - intros data Hread Hext. unfold process_image. simpl. rewrite Himg. simpl.
    rewrite Hread. simpl. rewrite Hext. simpl. unfold log. simpl.
    by rewrite <- !app_assoc.
Qed.

Lemma process_image_failure_stops_witness :
  process_image example_env_sweep menu1 (with_store initialize_csv example_world)
  = mkWorld (Some ["menu1.png"; "menu2.jpg"; "notes.txt"]) (Some [header_row])
      [ ReadBytes menu1; ExtractionRequest [] "image/png";
        ErrorReport "   Error processing menu1.png: not a menu" ].
Proof.
  refine (proj2 (process_image_failure_stops example_env_sweep menu1
                   (with_store initialize_csv example_world)
                   (mkExn "UnexpectedModelBehavior" "not a menu") eq_refl)
                [] eq_refl eq_refl).
Defined.

(** ** The sweep under every schedule *)

(** A property of the sweep that no resumption breaks holds when [gather]
    returns. *)
Lemma gather_invariant (env : Env) (Inv : sweep_state -> Prop) :
  (forall st i, Inv st -> Inv (resume_nth env st i)) ->
  forall sched images w,
    Inv (Created <$> images, w) -> Inv (gather env sched images w).
Proof.
  intros Hstep sched images w H0. unfold gather, drain.
  assert (forall l st, Inv st -> Inv (fold_left (resume_nth env) l st)) as Hsched.
  { induction l as [|i r IH]; intros st Hst; simpl; [done|]. by apply IH, Hstep. }
  assert (forall l st, Inv st ->
            Inv (fold_left
                   (fun st i => Nat.iter 4 (fun st => resume_nth env st i) st) l st))
    as Hdrain.
  { induction l as [|i r IH]; intros st Hst; simpl; [done|].
    apply IH. by do 4 apply Hstep. }
  apply Hdrain. by apply Hsched.
Qed.

(** The rows written and the rows still to write. *)
Lemma resume_nth_rows (env : Env) (st : sweep_state) (i : nat) :
  csv_rows (store (resume_nth env st i).2)
  ++ concat (pending_rows env <$> (resume_nth env st i).1)
  ≡ₚ csv_rows (store st.2) ++ concat (pending_rows env <$> st.1).
Proof.
  unfold resume_nth. destruct (st.1 !! i) as [t|] eqn:Hi; [|done].
  pose proof (resume_pending env t st.2) as Hstep.
  destruct (resume env t st.2) as [t' w']. simpl in *.
  rewrite insert_take_drop by (by eapply lookup_lt_Some).
  rewrite <- (take_drop_middle st.1 i t Hi) at 3.
  rewrite !fmap_app, !fmap_cons, !concat_app. simpl.
  set (c1 := concat (pending_rows env <$> take i st.1)).
  set (c2 := concat (pending_rows env <$> drop (S i) st.1)).
  transitivity ((csv_rows (store w') ++ pending_rows env t') ++ c1 ++ c2).
  - rewrite <- !app_assoc. f_equiv. rewrite !app_assoc. f_equiv. apply Permutation_app_comm.
  - rewrite Hstep. rewrite <- !app_assoc. f_equiv. rewrite !app_assoc. f_equiv.
    apply Permutation_app_comm.
Qed.

Lemma resume_nth_store_prefix (env : Env) (st : sweep_state) (i : nat) :
  exists new, csv_rows (store (resume_nth env st i).2) = csv_rows (store st.2) ++ new.
Proof.
  destruct (resume_nth_world env st i) as [-> | [t ->]].
  - exists []. by rewrite app_nil_r.
  - destruct (resume_store env t st.2) as [-> | (ts & img & e & ->)].
    + exists []. by rewrite app_nil_r.
    + rewrite append_to_csv_rows_eq. by eexists.
Qed.

Lemma done_pending (env : Env) (ts : list task) :
  Forall (fun t => t = Done) ts -> concat (pending_rows env <$> ts) = [].
Proof. induction 1 as [|t r -> _ IH]; [done|]. by simpl. Qed.

Lemma gather_store_prefix
    (env : Env) (sched : list nat) (images : list Path) (w : World) :
  exists new,
    csv_rows (store (gather env sched images w).2) = csv_rows (store w) ++ new.
Proof.
  apply (gather_invariant env
           (fun st => exists new, csv_rows (store st.2) = csv_rows (store w) ++ new)).
  - intros st i [new1 H1]. destruct (resume_nth_store_prefix env st i) as [new2 H2].
    exists (new1 ++ new2). by rewrite H2, H1, app_assoc.
  - exists []. by rewrite app_nil_r.
Qed.

Lemma gather_rows_permutation
    (env : Env) (sched : list nat) (images : list Path) (w : World) :
  csv_rows (store (gather env sched images w).2)
  ≡ₚ csv_rows (store w) ++ concat (image_rows env <$> images).
Proof.
  pose proof (gather_invariant env
    (fun st => csv_rows (store st.2) ++ concat (pending_rows env <$> st.1)
               ≡ₚ csv_rows (store w) ++ concat (image_rows env <$> images))) as Hperm.
  specialize (Hperm (fun st i H => transitivity (resume_nth_rows env st i) H)
                sched images w).
  simpl in Hperm. rewrite <- list_fmap_compose in Hperm.
  specialize (Hperm (reflexivity _)).
  rewrite (done_pending env _ (gather_all_done env sched images w)) in Hperm.
  by rewrite app_nil_r in Hperm.
Qed.

(** X7. Whatever the schedule, the sweep keeps the rows already in the
    store and adds after them exactly the rows of its images: the rows added
    are, up to their order, the rows each image's pipeline writes when it
    runs alone. No row is lost, doubled or invented by the interleaving. *)
Theorem gather_rows_any_schedule
    (env : Env) (sched : list nat) (images : list Path) (w : World) :
  exists new,
    csv_rows (store (gather env sched images w).2) = csv_rows (store w) ++ new /\
    new ≡ₚ concat (image_rows env <$> images).
Proof.
  destruct (gather_store_prefix env sched images w) as [new Hnew].
  exists new. split; [done|].
  pose proof (gather_rows_permutation env sched images w) as Hperm.
  rewrite Hnew in Hperm. by apply Permutation_app_inv_l in Hperm.
Qed.

(** ** The sweep with the tasks run one after the other *)





(** ** main: the store and the files read *)

Lemma process_image_rows (env : Env) (p : Path) (w : World) :
  csv_rows (store (process_image env p w)) = csv_rows (store w) ++ image_rows env p.
Proof.
  unfold process_image.
  pose proof (run_task_pending env 4 (Created p) w) as Hrows.
  rewrite (run_task_done env 4 (Created p) w) in Hrows by (simpl; lia).
  simpl in Hrows. by rewrite app_nil_r in Hrows.
Qed.

Lemma image_rows_no_header (env : Env) (images : list Path) :
  Forall (fun r => is_header r = false) (concat (image_rows env <$> images)).
Proof.
  induction images as [|p r IH]; simpl; [constructor|].
  apply Forall_app. split; [|done].
  eapply Forall_impl; [apply (pending_rows_tagged env (Created p) p); done|].
  by intros row [_ Hrow].
Qed.

Lemma header_count_rows (f g : csv_file) (new : list row) :
  csv_rows g = csv_rows f ++ new -> Forall (fun r => is_header r = false) new ->
  header_count g = header_count f.
Proof.
  intros Hrows Hnew. unfold header_count. rewrite Hrows, filter_app, length_app.
  assert (filter (fun r => is_header r = true) new = []) as ->; [|simpl; lia].
  apply elem_of_nil_inv. intros r [Hr Hin]%list_elem_of_filter.
  rewrite Forall_forall in Hnew. specialize (Hnew r Hin). congruence.
Qed.

Lemma resume_keeps_file (env : Env) (t : task) (w : World) :
  exists_file (store w) = true -> exists_file (store (resume env t w).2) = true.
Proof.
  intros Hw. destruct (resume_store env t w) as [-> | (ts & img & e & ->)]; done.
Qed.

(** X9. When the watched folder exists, [main] leaves a store file that
    consists of what [initialize_csv] made of the file it found, followed by
    the rows of the images of the sweep (up to their order). The sweep adds
    no header row: a store that did not exist starts with the header row and
    holds exactly one. *)
Theorem main_store_contents
    (env : Env) (sched : list nat) (w : World) (names : list string) :
  folder w = Some names ->
  exists new,
    store (main env sched w).2 = Some (csv_rows (initialize_csv (store w)) ++ new) /\
    new ≡ₚ concat (image_rows env <$> existing_images names) /\
    header_count (store (main env sched w).2) = header_count (initialize_csv (store w)) /\
    (store w = None ->
       store (main env sched w).2 = Some (header_row :: new) /\
       header_count (store (main env sched w).2) = 1).
Proof.
  intros Hfolder.
  set (w1 := with_store initialize_csv w).
  assert (exists_file (store w1) = true) as Hfile by (simpl; by destruct (store w)).
  assert (exists w',
            (main env sched w).2 = w' /\
            exists_file (store w') = true /\
            exists new, csv_rows (store w') = csv_rows (store w1) ++ new /\
                        new ≡ₚ concat (image_rows env <$> existing_images names))
    as (w' & -> & Hfile' & new & Hrows & Hperm).
  { unfold main. rewrite Hfolder. fold w1. simpl.
    destruct (existing_images names) as [|p r] eqn:Himgs.
    - exists w1. split_and!; [done | done |]. exists []. by rewrite app_nil_r.
    - eexists. split; [reflexivity|]. split.
      + apply (gather_invariant env (fun st => exists_file (store st.2) = true));
          [|done].
        intros st i Hst. destruct (resume_nth_world env st i) as [-> | [t ->]];
          [done | by apply resume_keeps_file].
      + destruct (gather_store_prefix env sched (p :: r) w1) as [new Hnew].
        exists new. split; [done|].
        pose proof (gather_rows_permutation env sched (p :: r) w1) as Hperm.
        rewrite Hnew in Hperm. by apply Permutation_app_inv_l in Hperm. }
  exists new.
  assert (store w' = Some (csv_rows (initialize_csv (store w)) ++ new)) as Hstore.
  { destruct (store w') as [rows|]; [|done]. simpl in Hrows. by rewrite Hrows. }
  assert (header_count (store w') = header_count (initialize_csv (store w))) as Hcount.
  { apply (header_count_rows _ _ new); [done|].
    rewrite Hperm. apply image_rows_no_header. }
  split_and!; [done | done | done |].
  intros Hnone. rewrite Hcount, Hstore, Hnone. done.
Qed.

Lemma main_store_contents_witness :
  exists new,
    store (main example_env_sweep [1; 0; 0; 1] example_world).2
    = Some (csv_rows (initialize_csv (store example_world)) ++ new) /\
    new ≡ₚ concat (image_rows example_env_sweep
                     <$> existing_images ["menu1.png"; "menu2.jpg"; "notes.txt"]) /\
    header_count (store (main example_env_sweep [1; 0; 0; 1] example_world).2)
    = header_count (initialize_csv (store example_world)) /\
    (store example_world = None ->
       store (main example_env_sweep [1; 0; 0; 1] example_world).2
       = Some (header_row :: new) /\
       header_count (store (main example_env_sweep [1; 0; 0; 1] example_world).2) = 1).
Proof.
  apply (main_store_contents example_env_sweep [1; 0; 0; 1] example_world
           ["menu1.png"; "menu2.jpg"; "notes.txt"]).
  reflexivity.
Defined.

Lemma resume_path (env : Env) (t : task) (w : World) (p : Path) :
  task_path (resume env t w).1 = Some p -> task_path t = Some p.
Proof.
  destruct t as [q|q|q d mt|q rn its|]; simpl; try done.
  - by destruct (is_image q).
  - by destruct (read_bytes env q).
  - by destruct (extraction_agent_run env q d mt).
  - by destruct (enrich_restaurant env q rn).
Qed.

(** A resumption reads no file but the image of its task. *)
Lemma resume_reads (env : Env) (t : task) (w : World) (q : Path) :
  ReadBytes q ∈ trace (resume env t w).2 ->
  ReadBytes q ∈ trace w \/ task_path t = Some q.
Proof.
  destruct t as [p|p|p d mt|p rn its|]; simpl.
  - destruct (is_image p); auto.
  - destruct (read_bytes env p); simpl.
    + rewrite !elem_of_app, !list_elem_of_singleton.
      intros [[Hq | [= ->]] | [=]]; auto.
    + rewrite elem_of_app, list_elem_of_singleton. intros [Hq | [=]]; auto.
  - destruct (extraction_agent_run env p d mt); simpl;
      rewrite elem_of_app, list_elem_of_singleton; intros [Hq | [=]]; auto.
  - destruct (enrich_restaurant env p rn); simpl; [auto|].
    rewrite elem_of_app, list_elem_of_singleton. intros [Hq | [=]]; auto.
  - auto.
Qed.

(** X10. During [main], the only files read are images of the watched
    folder: a file listed there whose suffix is an image extension. A file
    with another suffix is never opened. *)
Theorem main_reads_only_images
    (env : Env) (sched : list nat) (w : World) (names : list string) (q : Path) :
  folder w = Some names ->
  ReadBytes q ∈ trace (main env sched w).2 ->
  ReadBytes q ∈ trace w \/
  exists n, n ∈ names /\ q = path_join WATCH_FOLDER n /\ is_image q = true.
Proof.
  intros Hfolder. unfold main. rewrite Hfolder. simpl.
  destruct (existing_images names) as [|p r] eqn:Himgs; [by left|].
  rewrite <- Himgs. clear p r Himgs.
  set (images := existing_images names).
  set (w1 := with_store initialize_csv w).
  pose proof (gather_invariant env
    (fun st =>
       Forall (fun t => forall p, task_path t = Some p -> p ∈ images) st.1 /\
       (ReadBytes q ∈ trace st.2 -> ReadBytes q ∈ trace w \/ q ∈ images))) as Hinv.
  destruct (Hinv) with (sched := sched) (images := images) (w := w1) as [_ Hreads].
  - intros st i [Htasks Htrace]. unfold resume_nth.
    destruct (st.1 !! i) as [t|] eqn:Hi; [|done].
    pose proof (resume_path env t st.2) as Hpath.
    pose proof (resume_reads env t st.2 q) as Hread.
    destruct (resume env t st.2) as [t' w']. simpl in *.
    pose proof (proj1 (Forall_lookup _ _) Htasks i t Hi) as Ht.
    split.
    + apply Forall_insert; [done|]. intros p Hp. by apply Ht, Hpath.
    + intros [Hq | Hq]%Hread; [by apply Htrace | right; by apply Ht].
  - split; [|by left].
    apply Forall_fmap, Forall_forall. by intros p Hp p' [= <-].
  - intros [Hq | Hq]%Hreads; [by left | right].
    apply list_elem_of_filter in Hq as [Himg Hq].
    apply list_elem_of_fmap in Hq as (n & -> & Hn). by exists n.
Qed.

Lemma main_reads_only_images_witness :
  exists q,
    ReadBytes q ∈ trace (main example_env_sweep [] example_world).2 /\
    (ReadBytes q ∈ trace example_world \/
     exists n, n ∈ ["menu1.png"; "menu2.jpg"; "notes.txt"] /\
               q = path_join WATCH_FOLDER n /\ is_image q = true).
Proof.
  exists menu2.
  assert (ReadBytes menu2 ∈ trace (main example_env_sweep [] example_world).2) as Hin.
  { vm_compute. do 3 apply list_elem_of_further. apply list_elem_of_here. }
  split; [exact Hin|].
  exact (main_reads_only_images example_env_sweep [] example_world
           ["menu1.png"; "menu2.jpg"; "notes.txt"] menu2 eq_refl Hin).
Defined.

(** ** The handler of creation events *)

(** X11. After any sequence of creation events, the store holds what it
    held, followed by the rows of the images [on_created] let through, in
    the order of the events; no header row is added. Events for directories
    and for files without an image suffix change nothing at all. *)
Theorem dispatch_rows (env : Env) (events : list FileCreatedEvent) (w : World) :
  csv_rows (store (dispatch env events w))
  = csv_rows (store w) ++ concat (image_rows env <$> accepted_paths events) /\
  header_count (store (dispatch env events w)) = header_count (store w) /\
  (accepted_paths events = [] -> dispatch env events w = w).
Proof.
  assert (csv_rows (store (dispatch env events w))
          = csv_rows (store w) ++ concat (image_rows env <$> accepted_paths events))
    as Hrows.
  { unfold dispatch. revert w. induction events as [|ev r IH]; intros w; simpl.
    - by rewrite app_nil_r.
    - rewrite IH. unfold on_created, accepted_paths.
      destruct (is_directory ev) eqn:Hdir.
      + by rewrite filter_cons_False by (intros [? _]; congruence).
      + destruct (is_image (src_path ev)) eqn:Himg.
        * rewrite filter_cons_True by done. simpl.
          by rewrite process_image_rows, <- app_assoc.
        * by rewrite filter_cons_False by (intros [_ ?]; congruence). }
  split_and!.
  - done.
  - apply (header_count_rows _ _ _ Hrows), image_rows_no_header.
  - clear Hrows. unfold dispatch. revert w.
    induction events as [|ev r IH]; intros w; [done|].
    unfold accepted_paths. simpl. unfold on_created.
    destruct (is_directory ev) eqn:Hdir.
    + rewrite filter_cons_False by (intros [? _]; congruence). apply IH.
    + destruct (is_image (src_path ev)) eqn:Himg.
      * by rewrite filter_cons_True by done.
      * rewrite filter_cons_False by (intros [_ ?]; congruence). apply IH.
Qed.

Lemma dispatch_rows_witness :
  dispatch example_env_ok
    [ mkFileCreatedEvent true menu1;
      mkFileCreatedEvent false (path_join WATCH_FOLDER "notes.txt") ]
    example_world
  = example_world.
Proof.
  destruct (dispatch_rows example_env_ok
              [ mkFileCreatedEvent true menu1;
                mkFileCreatedEvent false (path_join WATCH_FOLDER "notes.txt") ]
              example_world) as (_ & _ & Hnone).
  apply Hnone. reflexivity.
Defined.

(** ** lesson10.py: merging the answers per restaurant *)

Lemma lesson10_get_None (d : Lesson10.items_dict) (r : string) :
  r ∉ d.*1 -> Lesson10.get r d = None.
Proof.
  induction d as [|[k v] d IH]; simpl; [done|].
  intros [Hne Hr]%not_elem_of_cons. rewrite decide_False by done. by apply IH.
Qed.

Lemma lesson10_get_app (d : Lesson10.items_dict) (k r : string) (v : list MenuItem) :
  Lesson10.get r (d ++ [(k, v)])
  = match Lesson10.get r d with
    | Some x => Some x
    | None => if decide (k = r) then Some v else None
    end.
Proof.
  induction d as [|[k' v'] d IH]; simpl; [done|].
  by destruct (decide (k' = r)).
Qed.

Lemma lesson10_set_item_fresh (d : Lesson10.items_dict) (k : string) (v : list MenuItem) :
  k ∉ d.*1 -> Lesson10.set_item k v d = d ++ [(k, v)].
Proof.
  induction d as [|[k' v'] d IH]; simpl; [done|].
  intros [Hne Hk]%not_elem_of_cons. rewrite decide_False by done. by rewrite IH.
Qed.

Lemma lesson10_extend_last (d : Lesson10.items_dict) (k : string) (v its : list MenuItem) :
  k ∉ d.*1 -> Lesson10.extend k its (d ++ [(k, v)]) = Some (d ++ [(k, v ++ its)]).
Proof.
  induction d as [|[k' v'] d IH]; simpl.
  - intros _. by rewrite decide_True.
  - intros [Hne Hk]%not_elem_of_cons. rewrite decide_False by done.
    by rewrite IH.
Qed.

Lemma lesson10_extend_present (d : Lesson10.items_dict) (k : string) (its : list MenuItem) :
  k ∈ d.*1 ->
  exists d', Lesson10.extend k its d = Some d' /\ d'.*1 = d.*1 /\
    forall r, Lesson10.get r d'
              = if decide (r = k) then (fun v => v ++ its) <$> Lesson10.get r d
                else Lesson10.get r d.
Proof.
  induction d as [|[k' v] d IH]; simpl.
  - intros Hk. by apply elem_of_nil in Hk.
  - intros Hk. destruct (decide (k' = k)) as [-> | Hne].
    + eexists. split_and!; [done | done |]. intros r. simpl.
      destruct (decide (k = r)) as [<- | Hr].
      * by rewrite decide_True.
      * by rewrite decide_False by done.
    + apply elem_of_cons in Hk as [-> | Hk]; [done|].
      destruct (IH Hk) as (d' & -> & Hkeys & Hget). simpl.
      eexists. split_and!; [done | by rewrite !fmap_cons, Hkeys |]. intros r. simpl.
      destruct (decide (k' = r)) as [<- | Hr].
      * by rewrite decide_False by done.
      * apply Hget.
Qed.

Lemma lesson10_items_of_snoc (r : string) (outputs : list MenuExtraction) (o : MenuExtraction) :
  Lesson10.items_of r (outputs ++ [o])
  = Lesson10.items_of r outputs
    ++ (if decide (me_restaurant_name o = r) then me_items o else []).
Proof.
  unfold Lesson10.items_of. rewrite filter_app, fmap_app, concat_app. f_equal.
  destruct (decide (me_restaurant_name o = r)) as [Heq | Hne].
  - rewrite filter_cons_True by done. simpl. by rewrite app_nil_r.
  - by rewrite filter_cons_False by done.
Qed.

Lemma first_per_key_id_elem (names : list string) (n : string) :
  n ∈ first_per_key id names <-> n ∈ names.
Proof.
  unfold first_per_key.
  pose proof (first_per_key_from_keys id [] names n) as H. simpl in H.
  by rewrite !list_fmap_id in H.
Qed.

Lemma lesson10_names_snoc (names : list string) (n : string) :
  first_per_key id (names ++ [n])
  = first_per_key id names ++ (if decide (n ∈ names) then [] else [n]).
Proof.
  unfold first_per_key. rewrite first_per_key_from_app. f_equal. simpl.
  rewrite list_fmap_id.
  pose proof (first_per_key_id_elem names n) as Hn. unfold first_per_key in Hn.
  destruct (decide (n ∈ names)) as [Hin | Hout].
  - by rewrite decide_True by (by apply Hn).
  - by rewrite decide_False by (by rewrite Hn).
Qed.

(** Merging one more answer keeps the dict grouped, and [d[k]] never fails. *)
Lemma lesson10_merge_groups
    (outputs : list MenuExtraction) (d : Lesson10.items_dict) (o : MenuExtraction) :
  Lesson10.groups outputs d ->
  exists d', Lesson10.merge d o = Returns d' /\ Lesson10.groups (outputs ++ [o]) d'.
Proof.
  intros [Hkeys Hget]. unfold Lesson10.merge, Lesson10.contains.
  set (n := me_restaurant_name o).
  assert (n ∈ d.*1 <-> n ∈ me_restaurant_name <$> outputs) as Hn.
  { rewrite Hkeys. apply first_per_key_id_elem. }
  destruct (decide (n ∈ d.*1)) as [Hin | Hout].
  - rewrite bool_decide_eq_true_2 by done. simpl.
    destruct (lesson10_extend_present d n (me_items o) Hin) as (d' & -> & Hk' & Hg').
    exists d'. split; [done|]. split.
    + rewrite Hk', Hkeys, fmap_app. simpl. fold n.
      rewrite lesson10_names_snoc. rewrite decide_True by (by apply Hn).
      by rewrite app_nil_r.
    + intros r. rewrite Hg', Hget, lesson10_items_of_snoc, fmap_app. simpl. fold n.
      destruct (decide (r = n)) as [-> | Hr].
      * rewrite !decide_True; [done | done | apply elem_of_app; left; by apply Hn
                                | by apply Hn].
      * rewrite (decide_False (P := n = r)) by done. rewrite app_nil_r.
        destruct (decide (r ∈ me_restaurant_name <$> outputs)) as [Hrin | Hrout].
        -- by rewrite decide_True by (apply elem_of_app; by left).
        -- rewrite decide_False; [done|].
           rewrite elem_of_app, list_elem_of_singleton. tauto.
  - rewrite bool_decide_eq_false_2 by done. simpl.
    rewrite lesson10_set_item_fresh by done.
    rewrite lesson10_extend_last by done. simpl.
    eexists. split; [done|]. split.
    + rewrite fmap_app, Hkeys, fmap_app. simpl. fold n.
      rewrite lesson10_names_snoc. by rewrite decide_False by (by rewrite <- Hn).
    + intros r. rewrite lesson10_get_app, Hget, lesson10_items_of_snoc, fmap_app.
      simpl. fold n.
      assert (Lesson10.items_of n outputs = []) as Hempty.
      { unfold Lesson10.items_of.
        assert (filter (fun o => me_restaurant_name o = n) outputs = []) as ->; [|done].
        apply elem_of_nil_inv. intros x [Hx Hxin]%list_elem_of_filter.
        apply Hout, Hn. rewrite <- Hx. by apply list_elem_of_fmap_2. }
      destruct (decide (r ∈ me_restaurant_name <$> outputs)) as [Hrin | Hrout].
      * rewrite decide_True by (apply elem_of_app; by left).
        rewrite (decide_False (P := n = r)); [by rewrite app_nil_r|].
        intros <-. by apply Hout, Hn.
      * destruct (decide (n = r)) as [<- | Hr].
        -- rewrite decide_True by (apply elem_of_app; right; apply list_elem_of_here).
           by rewrite Hempty.
        -- rewrite decide_False; [done|].
           rewrite elem_of_app, list_elem_of_singleton. intros [? | ?]; congruence.
Qed.

Lemma lesson10_process_folder_groups
    (env : Env) (paths : list Path) (seen : list MenuExtraction)
    (d d' : Lesson10.items_dict) :
  Lesson10.groups seen d ->
  Lesson10.process_folder env paths d = Returns d' ->
  exists outputs,
    Lesson10.extractions env paths = Returns outputs /\
    Lesson10.groups (seen ++ outputs) d'.
Proof.
  revert seen d. induction paths as [|p r IH]; intros seen d Hd; simpl.
  - intros [= <-]. exists []. by rewrite app_nil_r.
  - destruct (negb _); [by apply IH|].
    destruct (read_bytes env p) as [data|e]; [|done].
    destruct (extraction_agent_run env p data _) as [o|e]; [|done].
    destruct (lesson10_merge_groups seen d o Hd) as (d1 & -> & Hd1).
    intros Hrest. destruct (IH _ _ Hd1 Hrest) as (outs & -> & Hgroups).
    exists (o :: outs). split; [done|]. by rewrite <- app_assoc in Hgroups.
Qed.

Lemma lesson10_extend_length
    (d d' : Lesson10.items_dict) (k : string) (its : list MenuItem) :
  Lesson10.extend k its d = Some d' ->
  length (concat d'.*2) = length (concat d.*2) + length its.
Proof.
  revert d'. induction d as [|[k' v] d IH]; intros d'; cbn [Lesson10.extend]; [done|].
  destruct (decide (k' = k)) as [-> | Hne].
  - intros [= <-]. rewrite !fmap_cons. cbn [snd concat]. rewrite !length_app. lia.
  - destruct (Lesson10.extend k its d) as [r'|]; [|done]. cbn [mbind option_bind].
    intros [= <-]. rewrite !fmap_cons. cbn [snd concat].
    pose proof (IH r' eq_refl) as Hr. rewrite !length_app. lia.
Qed.

Lemma lesson10_merge_length
    (d d' : Lesson10.items_dict) (o : MenuExtraction) :
  Lesson10.merge d o = Returns d' ->
  length (concat d'.*2) = length (concat d.*2) + length (me_items o).
Proof.
  unfold Lesson10.merge, Lesson10.contains.
  destruct (decide (me_restaurant_name o ∈ d.*1)) as [Hin | Hout].
  - rewrite bool_decide_eq_true_2 by done. simpl.
    destruct (Lesson10.extend _ _ d) as [r|] eqn:Hext; [|done].
    intros [= <-]. by apply lesson10_extend_length in Hext.
  - rewrite bool_decide_eq_false_2 by done. simpl.
    rewrite lesson10_set_item_fresh by done.
    destruct (Lesson10.extend _ _ _) as [r|] eqn:Hext; [|done].
    intros [= <-]. apply lesson10_extend_length in Hext. rewrite Hext.
    rewrite fmap_app, concat_app, length_app. simpl. lia.
Qed.

Lemma lesson10_process_folder_length
    (env : Env) (paths : list Path) (d d' : Lesson10.items_dict)
    (outputs : list MenuExtraction) :
  Lesson10.process_folder env paths d = Returns d' ->
  Lesson10.extractions env paths = Returns outputs ->
  length (concat d'.*2)
  = length (concat d.*2) + length (concat (me_items <$> outputs)).
Proof.
  revert d outputs. induction paths as [|p r IH]; intros d outputs; simpl.
  - intros [= <-] [= <-]. simpl. lia.
  - destruct (negb _); [by apply IH|].
    destruct (read_bytes env p) as [data|e]; [|done].
    destruct (extraction_agent_run env p data _) as [o|e]; [|done].
    destruct (Lesson10.merge d o) as [d1|e] eqn:Hmerge; [|done].
    intros Hrest. destruct (Lesson10.extractions env r) as [outs|e]; [|done].
    intros [= <-]. rewrite fmap_cons. cbn [concat]. rewrite length_app.
    rewrite (IH d1 outs Hrest eq_refl), (lesson10_merge_length _ _ _ Hmerge). lia.
Qed.

(** X12. When the script of lesson 10 reaches its end, [all_items] groups
    the agent's answers by restaurant name: one key per name, in the order
    the names are first met, each holding the items of every answer with
    that name, in order; a name no answer carries is absent. Items are not
    de-duplicated and none is dropped. *)
Theorem lesson10_script_groups
    (env : Env) (names : list string) (d : Lesson10.items_dict) :
  Lesson10.script env (Some names) = Returns d ->
  exists outputs,
    Lesson10.extractions env (path_join Lesson10.folder <$> names) = Returns outputs /\
    d.*1 = first_per_key id (me_restaurant_name <$> outputs) /\
    (forall r, r ∈ me_restaurant_name <$> outputs ->
               Lesson10.get r d = Some (Lesson10.items_of r outputs)) /\
    (forall r, r ∉ me_restaurant_name <$> outputs -> Lesson10.get r d = None) /\
    length (concat d.*2) = length (concat (me_items <$> outputs)).
Proof.
  unfold Lesson10.script. intros Hrun.
  destruct (lesson10_process_folder_groups env _ [] [] d
              (conj eq_refl (fun r => eq_refl)) Hrun)
    as (outs & Houts & Hkeys & Hget).
  exists outs. split_and!.
  - done.
  - done.
  - intros r Hr. by rewrite Hget, decide_True.
  - intros r Hr. by rewrite Hget, decide_False.
  - by rewrite (lesson10_process_folder_length env _ [] d outs Hrun Houts).
Qed.

Lemma lesson10_script_groups_witness :
  exists outputs,
    Lesson10.extractions lesson10_example_env
      (path_join Lesson10.folder <$> ["a.png"; "b.png"; "notes.txt"; "c.jpg"])
    = Returns outputs /\
    [ ("Cafe X", [example_item "a.png" 5; example_item "c.jpg" 5]);
      ("Bistro", [example_item "b.png" 5]) ].*1
    = first_per_key id (me_restaurant_name <$> outputs) /\
    (forall r, r ∈ me_restaurant_name <$> outputs ->
       Lesson10.get r
         [ ("Cafe X", [example_item "a.png" 5; example_item "c.jpg" 5]);
           ("Bistro", [example_item "b.png" 5]) ]
       = Some (Lesson10.items_of r outputs)) /\
    (forall r, r ∉ me_restaurant_name <$> outputs ->
       Lesson10.get r
         [ ("Cafe X", [example_item "a.png" 5; example_item "c.jpg" 5]);
           ("Bistro", [example_item "b.png" 5]) ]
       = None) /\
    length (concat
              [ ("Cafe X", [example_item "a.png" 5; example_item "c.jpg" 5]);
                ("Bistro", [example_item "b.png" 5]) ].*2)
    = length (concat (me_items <$> outputs)).
Proof.
  apply (lesson10_script_groups lesson10_example_env
           ["a.png"; "b.png"; "notes.txt"; "c.jpg"]).
  reflexivity.
Defined.

(** X13. Nothing in the script of lesson 10 catches an exception: when the
    folder is missing, or when reading or extracting any one image of the
    folder raises, the script ends with an exception and no dictionary,
    whatever the other images gave. *)
Theorem lesson10_script_aborts (env : Env) :
  (exists e, Lesson10.script env None = Raises e /\
             exn_msg e = "Folder 'images' not found") /\
  forall (names : list string) (n : string) (e : exn),
    n ∈ names ->
    Str.lower (suffix (path_join Lesson10.folder n)) ∈ Lesson10.image_extensions ->
    (read_bytes env (path_join Lesson10.folder n) = Raises e \/
     exists data,
       read_bytes env (path_join Lesson10.folder n) = Returns data /\
       extraction_agent_run env (path_join Lesson10.folder n) data
         (get_media_type (path_join Lesson10.folder n)) = Raises e) ->
    exists e', Lesson10.script env (Some names) = Raises e'.
Proof.
  split; [by eexists|].
  intros names n e Hn Himg Hfail. unfold Lesson10.script.
  generalize (@nil (string * list MenuItem)).
  induction names as [|m r IH]; intros d; [by apply elem_of_nil in Hn|].
  rewrite fmap_cons. simpl.
  destruct (decide (m = n)) as [-> | Hne].
  - rewrite bool_decide_eq_true_2 by done. simpl.
    destruct Hfail as [-> | (data & -> & ->)]; by eexists.
  - apply elem_of_cons in Hn as [-> | Hn]; [done|].
    destruct (negb _); [by apply IH|].
    destruct (read_bytes env (path_join Lesson10.folder m)) as [data|e1];
      [|by eexists].
    destruct (extraction_agent_run env (path_join Lesson10.folder m) data _)
      as [o|e1]; [|by eexists].
    destruct (Lesson10.merge d o) as [d1|e1]; [by apply IH | by eexists].
Qed.

Lemma lesson10_script_aborts_witness :
  exists e',
    Lesson10.script lesson10_failing_env (Some ["a.png"; "menu1.png"; "c.jpg"])
    = Raises e'.
Proof.
  destruct (lesson10_script_aborts lesson10_failing_env) as [_ Habort].
  apply (Habort ["a.png"; "menu1.png"; "c.jpg"] "menu1.png"
           (mkExn "UnexpectedModelBehavior" "not a menu")).
  - apply list_elem_of_further, list_elem_of_here.
  - by apply (bool_decide_unpack _).
  - right. exists []. split; reflexivity.
Defined.

(** ** lesson11.py: the synchronous loop *)

Lemma lesson11_process_image_rows (env : Env) (p : Path) (w : World) :
  csv_rows (store (Lesson11.process_image env p w))
  = csv_rows (store w) ++ Lesson11.image_rows env p /\
  (exists_file (store w) = true ->
     exists_file (store (Lesson11.process_image env p w)) = true).
Proof.
  unfold Lesson11.process_image, Lesson11.image_rows.
  destruct (is_image p); simpl; [|by rewrite app_nil_r].
  destruct (read_bytes env p) as [data|e]; simpl; [|by rewrite app_nil_r].
  destruct (extraction_agent_run env p data (get_media_type p)) as [o|e]; simpl;
    [|by rewrite app_nil_r].
  by rewrite writerow_fold.
Qed.

Lemma lesson11_loop_rows (env : Env) (images : list Path) (w : World) :
  csv_rows (store (fold_left (fun w p => Lesson11.process_image env p w) images w))
  = csv_rows (store w) ++ concat (Lesson11.image_rows env <$> images) /\
  (exists_file (store w) = true ->
     exists_file
       (store (fold_left (fun w p => Lesson11.process_image env p w) images w)) = true).
Proof.
  revert w. induction images as [|p r IH]; intros w; simpl.
  - by rewrite app_nil_r.
  - destruct (IH (Lesson11.process_image env p w)) as [Hrows Hfile].
    destruct (lesson11_process_image_rows env p w) as [Hrows1 Hfile1].
    split; [|auto]. by rewrite Hrows, Hrows1, <- app_assoc.
Qed.

(** X14. In the synchronous script, when the watched folder exists and there
    is no store file yet, [main] leaves a store made of the seven-column
    header followed, image after image in the order of the listing, by one
    row per item the agent returned for the image, repeated dishes included.
    An image whose read or extraction raises contributes no row and does not
    stop the loop. *)
Theorem lesson11_main_store (env : Env) (w : World) (names : list string) :
  folder w = Some names -> store w = None ->
  (Lesson11.main env w).1 = MainWatching /\
  store (Lesson11.main env w).2
  = Some (Lesson11.header_row
          :: concat (Lesson11.image_rows env <$> existing_images names)) /\
  forall n data output,
    read_bytes env (path_join WATCH_FOLDER n) = Returns data ->
    extraction_agent_run env (path_join WATCH_FOLDER n) data
      (get_media_type (path_join WATCH_FOLDER n)) = Returns output ->
    is_image (path_join WATCH_FOLDER n) = true ->
    length (Lesson11.image_rows env (path_join WATCH_FOLDER n))
    = length (me_items output).
Proof.
  intros Hfolder Hstore. unfold Lesson11.main. rewrite Hfolder. simpl.
  split_and!.
  - done.
  - set (w1 := with_store Lesson11.initialize_csv w).
    destruct (lesson11_loop_rows env (existing_images names) w1) as [Hrows Hfile].
    assert (store w1 = Some [Lesson11.header_row]) as Hw1
      by (unfold w1; simpl; by rewrite Hstore).
    rewrite Hw1 in Hrows, Hfile. specialize (Hfile eq_refl).
    destruct (store (fold_left _ _ w1)) as [rows|]; [|done].
    simpl in Hrows. by rewrite Hrows.
  - intros n data output Hread Hext Himg. unfold Lesson11.image_rows.
    rewrite Himg, Hread, Hext. apply length_fmap.
Qed.

Lemma lesson11_main_store_witness :
  (Lesson11.main example_env_sweep example_world).1 = MainWatching /\
  store (Lesson11.main example_env_sweep example_world).2
  = Some (Lesson11.header_row
          :: concat (Lesson11.image_rows example_env_sweep
                       <$> existing_images ["menu1.png"; "menu2.jpg"; "notes.txt"])) /\
  forall n data output,
    read_bytes example_env_sweep (path_join WATCH_FOLDER n) = Returns data ->
    extraction_agent_run example_env_sweep (path_join WATCH_FOLDER n) data
      (get_media_type (path_join WATCH_FOLDER n)) = Returns output ->
    is_image (path_join WATCH_FOLDER n) = true ->
    length (Lesson11.image_rows example_env_sweep (path_join WATCH_FOLDER n))
    = length (me_items output).
Proof.
  apply (lesson11_main_store example_env_sweep example_world
           ["menu1.png"; "menu2.jpg"; "notes.txt"]); reflexivity.
Defined.

Example lesson11_keeps_repeated_dishes :
  length (Lesson11.image_rows example_env_sweep menu2) = 3 /\
  length (image_rows example_env_sweep menu2) = 2.
Proof. split; reflexivity. Qed.
